(** * Bunny: a shallow embedding of [src/main.cpp]

    The viewer loads one OBJ mesh, deduplicates its vertices, builds a shader
    pipeline and renders the mesh under an orbit camera driven by mouse
    input.  This development embeds the parts of [main.cpp] that carry the
    program's logic and proves properties of them:

    - the vertex deduplication of [loadModel];
    - the channel-format table of [loadTexture];
    - the input callbacks and the camera state they maintain;
    - [createShaderProgram] with [checkShader] / [checkProgram], over a
      small model of the OpenGL object store;
    - [camera], generic in the scalar type, and one iteration of the frame
      loop.

    Conventions.  A C++ [float] or [double] is an IEEE-754 value of the
    Standard Library's [spec_float]; the binary32 and binary64 operations are
    the library's specification functions at precision 24 and 53.  A 32-bit
    integer is a [Z] with its wrap-around written out.  An access outside a
    [std::vector] and a signed overflow have no defined behaviour in C++: the
    embedding returns [None] there.  Console output is not modelled. *)

From Stdlib Require Import ZArith List Bool Lia.
From Stdlib Require Import Floats.SpecFloat.
From stdpp Require Import base option list strings pretty gmap.
Import ListNotations.

Local Open Scope Z_scope.

(* ================================================================== *)
(** * Part I: definitions                                              *)
(* ================================================================== *)

(** ** Machine integers *)

Definition to_uint32 (z : Z) : Z := z mod 2 ^ 32.

(** [static_cast<GLsizei>]: the value modulo 2^32, read as signed. *)
Definition to_int32 (z : Z) : Z := (z + 2 ^ 31) mod 2 ^ 32 - 2 ^ 31.

Definition INT_MIN : Z := - 2 ^ 31.
Definition INT_MAX : Z := 2 ^ 31 - 1.

(** Arithmetic on [int]; overflow is undefined behaviour. *)
Definition int_checked (z : Z) : option Z :=
  if (INT_MIN <=? z) && (z <=? INT_MAX) then Some z else None.

Definition int_mul (a b : Z) : option Z := int_checked (a * b).
Definition int_add (a b : Z) : option Z := int_checked (a + b).

(** [v[i]] on a [std::vector], the [int] index converted to [size_t]: a
    negative index becomes a huge one, out of range like any other. *)
Definition vector_at {A : Type} (v : list A) (i : Z) : option A :=
  if (0 <=? i) && (i <? Z.of_nat (length v)) then v !! Z.to_nat i else None.

(** ** Floating-point values *)

Definition float : Type := spec_float.   (* binary32 *)
Definition double : Type := spec_float.  (* binary64 *)

Definition fadd : float -> float -> float := SFadd 24 128.
Definition fsub : float -> float -> float := SFsub 24 128.
Definition fmul : float -> float -> float := SFmul 24 128.
Definition fdiv : float -> float -> float := SFdiv 24 128.
Definition fneg : float -> float := SFopp.
Definition fsqrt : float -> float := SFsqrt 24 128.
Definition dsub : double -> double -> double := SFsub 53 1024.

(** [==] and [<] of C++ on floating-point operands. *)
Definition feq : spec_float -> spec_float -> bool := SFeqb.
Definition flt : spec_float -> spec_float -> bool := SFltb.
Definition fge (a b : spec_float) : bool := SFleb b a.

Definition is_nan (f : spec_float) : bool :=
  match f with S754_nan => true | _ => false end.

(** Integer-valued literals and [static_cast<float>(int)]. *)
Definition float_of_Z (z : Z) : float := binary_normalize 24 128 z 0 false.
Definition double_of_Z (z : Z) : double := binary_normalize 53 1024 z 0 false.

(** The cast [(float)d] of a [double]: rounding to nearest, ties to even. *)
Definition double_to_float (d : double) : float :=
  match d with
  | S754_finite s m e => binary_round 24 128 s m e
  | _ => d
  end.

(** ** glm vectors and matrices, over any scalar type *)

Record vec2 (T : Type) : Type := mk_vec2 { vec2_x : T; vec2_y : T }.
Record vec3 (T : Type) : Type := mk_vec3 { vec3_x : T; vec3_y : T; vec3_z : T }.
Record vec4 (T : Type) : Type :=
  mk_vec4 { vec4_x : T; vec4_y : T; vec4_z : T; vec4_w : T }.

Arguments mk_vec2 {T} _ _.
Arguments mk_vec3 {T} _ _ _.
Arguments mk_vec4 {T} _ _ _ _.
Arguments vec2_x {T} _.
Arguments vec2_y {T} _.
Arguments vec3_x {T} _.
Arguments vec3_y {T} _.
Arguments vec3_z {T} _.
Arguments vec4_x {T} _.
Arguments vec4_y {T} _.
Arguments vec4_z {T} _.
Arguments vec4_w {T} _.

(** Column-major, as glm stores it: [mat4_c0] is [m[0]]. *)
Record mat4 (T : Type) : Type :=
  mk_mat4 { mat4_c0 : vec4 T; mat4_c1 : vec4 T; mat4_c2 : vec4 T; mat4_c3 : vec4 T }.

Arguments mk_mat4 {T} _ _ _ _.
Arguments mat4_c0 {T} _.
Arguments mat4_c1 {T} _.
Arguments mat4_c2 {T} _.
Arguments mat4_c3 {T} _.

(** [operator==] of glm on float vectors: component-wise [==]. *)
Definition vec2_eq (a b : vec2 float) : bool :=
  feq (vec2_x a) (vec2_x b) && feq (vec2_y a) (vec2_y b).

Definition vec3_eq (a b : vec3 float) : bool :=
  feq (vec3_x a) (vec3_x b) && feq (vec3_y a) (vec3_y b)
  && feq (vec3_z a) (vec3_z b).

Definition vec4_eq (a b : vec4 float) : bool :=
  feq (vec4_x a) (vec4_x b) && feq (vec4_y a) (vec4_y b)
  && feq (vec4_z a) (vec4_z b) && feq (vec4_w a) (vec4_w b).

(** ** The vertex record and its equality (main.cpp, lines 53-61) *)

Record Vertex : Type := mk_Vertex {
  position : vec4 float;
  color : vec4 float;
  texcoord : vec2 float
}.

(** [Vertex::operator==]. *)
Definition Vertex_eq (a b : Vertex) : bool :=
  vec4_eq (position a) (position b) && vec4_eq (color a) (color b)
  && vec2_eq (texcoord a) (texcoord b).

(** ** What [tinyobj::LoadObj] hands to the loader *)

Module tinyobj.

Record index_t : Type := mk_index {
  vertex_index : Z;
  normal_index : Z;
  texcoord_index : Z
}.

Record mesh_t : Type := mk_mesh { indices : list index_t }.

Record shape_t : Type := mk_shape { mesh : mesh_t }.

Record attrib_t : Type := mk_attrib {
  vertices : list float;
  normals : list float;
  texcoords : list float
}.

End tinyobj.

(** ** [std::unordered_map<Vertex, uint32_t>]

    The table is observed through [count] and [operator[]] only and is never
    iterated, so it is embedded as the list of its entries, searched with the
    key equality [Vertex::operator==].  ([std::hash<Vertex>] only selects the
    bucket; it agrees on keys that compare equal.) *)

Definition unordered_map : Type := list (Vertex * Z).

Definition key_is (v : Vertex) (e : Vertex * Z) : bool := Vertex_eq (fst e) v.

Definition um_count (m : unordered_map) (v : Vertex) : Z :=
  if existsb (key_is v) m then 1 else 0.

(** [m[v]] read: the mapped value, a value-initialised entry being inserted
    when no key compares equal. *)
Definition um_index (m : unordered_map) (v : Vertex) : unordered_map * Z :=
  match find (key_is v) m with
  | Some e => (m, snd e)
  | None => (m ++ [(v, 0)], 0)
  end.

(** [m[v] = n]. *)
Fixpoint um_assign (m : unordered_map) (v : Vertex) (n : Z) : unordered_map :=
  match m with
  | [] => [(v, n)]
  | e :: m' => if key_is v e then (fst e, n) :: m' else e :: um_assign m' v n
  end.

(** ** [loadModel] (main.cpp, lines 319-369) *)

(** The two global vectors of lines 73-74. *)
Record model : Type := mk_model {
  vertices : list Vertex;
  indices : list Z
}.

Definition one : float := float_of_Z 1.

(** Lines 345-359: the vertex of one face corner. *)
Definition make_vertex (attrib : tinyobj.attrib_t) (index : tinyobj.index_t)
  : option Vertex :=
  let vi := tinyobj.vertex_index index in
  let ti := tinyobj.texcoord_index index in
  i0 ← int_mul 3 vi ≫= (λ k, int_add k 0);
  px ← vector_at (tinyobj.vertices attrib) i0;
  i1 ← int_mul 3 vi ≫= (λ k, int_add k 1);
  py ← vector_at (tinyobj.vertices attrib) i1;
  i2 ← int_mul 3 vi ≫= (λ k, int_add k 2);
  pz ← vector_at (tinyobj.vertices attrib) i2;
  j0 ← int_mul 2 ti ≫= (λ k, int_add k 0);
  tu ← vector_at (tinyobj.texcoords attrib) j0;
  j1 ← int_mul 2 ti ≫= (λ k, int_add k 1);
  tv ← vector_at (tinyobj.texcoords attrib) j1;
  Some {| position := mk_vec4 px py pz one;
          color := mk_vec4 one one one one;
          texcoord := mk_vec2 tu tv |}.

(** Lines 361-366: the table lookup and the two [push_back]s. *)
Definition push_vertex (st : unordered_map * model) (vertex : Vertex)
  : unordered_map * model :=
  let '(uniqueVertices, g) := st in
  let '(uniqueVertices, g) :=
    if um_count uniqueVertices vertex =? 0 then
      (um_assign uniqueVertices vertex
         (to_uint32 (Z.of_nat (length (vertices g)))),
       {| vertices := vertices g ++ [vertex]; indices := indices g |})
    else (uniqueVertices, g) in
  let '(uniqueVertices, i) := um_index uniqueVertices vertex in
  (uniqueVertices, {| vertices := vertices g; indices := indices g ++ [i] |}).

(** The inner loop, over the corners of one shape. *)
Fixpoint for_indices (attrib : tinyobj.attrib_t) (l : list tinyobj.index_t)
    (st : unordered_map * model) : option (unordered_map * model) :=
  match l with
  | [] => Some st
  | index :: l' =>
      vertex ← make_vertex attrib index;
      for_indices attrib l' (push_vertex st vertex)
  end.

(** The outer loop, over the shapes. *)
Fixpoint for_shapes (attrib : tinyobj.attrib_t) (l : list tinyobj.shape_t)
    (st : unordered_map * model) : option (unordered_map * model) :=
  match l with
  | [] => Some st
  | shape :: l' =>
      st' ← for_indices attrib (tinyobj.indices (tinyobj.mesh shape)) st;
      for_shapes attrib l' st'
  end.

(** [loadModel]: the table is local and starts empty; the two vectors are the
    globals, in the state the caller left them. *)
Definition loadModel (attrib : tinyobj.attrib_t) (shapes : list tinyobj.shape_t)
    (g : model) : option model :=
  snd <$> for_shapes attrib shapes ([], g).

Definition empty_model : model := {| vertices := []; indices := [] |}.

(** ** The attribute combinations a mesh refers to

    The quantities of the data model that the loader is measured against: the
    (position, texcoord) pair each face corner refers to, and the number of
    distinct pairs among them.  Two pairs are the same combination when their
    components compare equal with [==], the comparison of the data model. *)

Definition combination : Type := vec3 float * vec2 float.

Definition same_combination (a b : combination) : bool :=
  vec3_eq (fst a) (fst b) && vec2_eq (snd a) (snd b).

Definition corners (shapes : list tinyobj.shape_t) : list tinyobj.index_t :=
  concat (map (λ s, tinyobj.indices (tinyobj.mesh s)) shapes).

Definition corner_combination (attrib : tinyobj.attrib_t)
    (index : tinyobj.index_t) : option combination :=
  let vi := tinyobj.vertex_index index in
  let ti := tinyobj.texcoord_index index in
  px ← vector_at (tinyobj.vertices attrib) (3 * vi);
  py ← vector_at (tinyobj.vertices attrib) (3 * vi + 1);
  pz ← vector_at (tinyobj.vertices attrib) (3 * vi + 2);
  tu ← vector_at (tinyobj.texcoords attrib) (2 * ti);
  tv ← vector_at (tinyobj.texcoords attrib) (2 * ti + 1);
  Some (mk_vec3 px py pz, mk_vec2 tu tv).

Definition referenced_combinations (attrib : tinyobj.attrib_t)
    (shapes : list tinyobj.shape_t) : option (list combination) :=
  mapM (corner_combination attrib) (corners shapes).

(** The number of distinct elements of [l]: those no later element equals. *)
Fixpoint count_distinct {A : Type} (same : A -> A -> bool) (l : list A) : nat :=
  match l with
  | [] => 0%nat
  | a :: l' =>
      if existsb (same a) l' then count_distinct same l'
      else S (count_distinct same l')
  end.

(** A mesh the loader can read: every face corner names a position and a
    texture coordinate that the attribute arrays hold, at offsets an [int]
    can express. *)
Definition corner_in_range (attrib : tinyobj.attrib_t)
    (index : tinyobj.index_t) : bool :=
  let vi := tinyobj.vertex_index index in
  let ti := tinyobj.texcoord_index index in
  (0 <=? vi) && (3 * vi + 2 <? Z.of_nat (length (tinyobj.vertices attrib)))
  && (3 * vi + 2 <=? INT_MAX)
  && (0 <=? ti) && (2 * ti + 1 <? Z.of_nat (length (tinyobj.texcoords attrib)))
  && (2 * ti + 1 <=? INT_MAX).

Definition mesh_in_range (attrib : tinyobj.attrib_t)
    (shapes : list tinyobj.shape_t) : bool :=
  forallb (corner_in_range attrib) (corners shapes).

(** No attribute the mesh holds is NaN. *)
Definition mesh_nan_free (attrib : tinyobj.attrib_t) : bool :=
  forallb (λ f, negb (is_nan f))
          (tinyobj.vertices attrib ++ tinyobj.texcoords attrib).

Definition vertex_has_nan (v : Vertex) : bool :=
  is_nan (vec4_x (position v)) || is_nan (vec4_y (position v))
  || is_nan (vec4_z (position v)) || is_nan (vec4_w (position v))
  || is_nan (vec4_x (color v)) || is_nan (vec4_y (color v))
  || is_nan (vec4_z (color v)) || is_nan (vec4_w (color v))
  || is_nan (vec2_x (texcoord v)) || is_nan (vec2_y (texcoord v)).

(** ** The format table of [loadTexture] (main.cpp, lines 412-422) *)

(* stb_image.h *)
Definition STBI_default : Z := 0.
Definition STBI_grey : Z := 1.
Definition STBI_grey_alpha : Z := 2.
Definition STBI_rgb : Z := 3.
Definition STBI_rgb_alpha : Z := 4.

(* glad.h *)
Definition GL_RED : Z := 0x1903.
Definition GL_RGB : Z := 0x1907.
Definition GL_RGBA : Z := 0x1908.
Definition GL_RG : Z := 0x8227.
Definition GL_R8 : Z := 0x8229.
Definition GL_RG8 : Z := 0x822B.
Definition GL_RGB8 : Z := 0x8051.
Definition GL_RGBA8 : Z := 0x8058.

(** The [switch] on [comp]: the pair (internal format, transfer format). *)
Definition loadTexture_format (comp : Z) : Z * Z :=
  if comp =? STBI_rgb_alpha then (GL_RGBA8, GL_RGBA)
  else if comp =? STBI_rgb then (GL_RGB8, GL_RGB)
  else if comp =? STBI_grey then (GL_R8, GL_RED)
  else if comp =? STBI_grey_alpha then (GL_RG8, GL_RG)
  else (GL_RGBA8, GL_RGBA).

(** ** The window and the camera state *)

(* glfw3.h *)
Definition GLFW_RELEASE : Z := 0.
Definition GLFW_PRESS : Z := 1.
Definition GLFW_MOUSE_BUTTON_LEFT : Z := 0.
Definition GLFW_KEY_ESCAPE : Z := 256.
Definition GLFW_CURSOR : Z := 0x00033001.
Definition GLFW_CURSOR_NORMAL : Z := 0x00034001.
Definition GLFW_CURSOR_DISABLED : Z := 0x00034003.

(** What the program observes of a [GLFWwindow]: the cursor mode, the cursor
    position the window system reports, and the close flag. *)
Record GLFWwindow : Type := mk_window {
  cursor_mode : Z;
  cursor_pos : double * double;
  should_close : bool
}.

Definition glfwSetInputMode (w : GLFWwindow) (mode value : Z) : GLFWwindow :=
  if mode =? GLFW_CURSOR
  then {| cursor_mode := value; cursor_pos := cursor_pos w;
          should_close := should_close w |}
  else w.

Definition glfwGetInputMode (w : GLFWwindow) (mode : Z) : Z :=
  if mode =? GLFW_CURSOR then cursor_mode w else 0.

Definition glfwGetCursorPos (w : GLFWwindow) : double * double := cursor_pos w.

Definition glfwSetWindowShouldClose (w : GLFWwindow) (value : Z) : GLFWwindow :=
  {| cursor_mode := cursor_mode w; cursor_pos := cursor_pos w;
     should_close := negb (value =? 0) |}.

(** The globals of lines 48-51 together with the window they are used with. *)
Record state : Type := mk_state {
  rotation : vec2 float;
  zoom : float;
  cursorX : double;
  cursorY : double;
  window : GLFWwindow
}.

Definition initial_state (w : GLFWwindow) : state :=
  {| rotation := mk_vec2 (float_of_Z 0) (float_of_Z 0);
     zoom := float_of_Z 40;
     cursorX := S754_zero false;
     cursorY := S754_zero false;
     window := w |}.

(** Lines 273-277. *)
Definition key_callback (st : state) (key scancode action mods : Z) : state :=
  if (key =? GLFW_KEY_ESCAPE) && (action =? GLFW_PRESS)
  then {| rotation := rotation st; zoom := zoom st;
          cursorX := cursorX st; cursorY := cursorY st;
          window := glfwSetWindowShouldClose (window st) 1 |}
  else st.

(** Lines 282-293. *)
Definition mouse_button_callback (st : state) (button action mods : Z) : state :=
  if negb (button =? GLFW_MOUSE_BUTTON_LEFT) then st
  else if action =? GLFW_PRESS then
    let w := glfwSetInputMode (window st) GLFW_CURSOR GLFW_CURSOR_DISABLED in
    let '(x, y) := glfwGetCursorPos w in
    {| rotation := rotation st; zoom := zoom st;
       cursorX := x; cursorY := y; window := w |}
  else
    {| rotation := rotation st; zoom := zoom st;
       cursorX := cursorX st; cursorY := cursorY st;
       window := glfwSetInputMode (window st) GLFW_CURSOR GLFW_CURSOR_NORMAL |}.

(** Lines 298-307. *)
Definition cursor_position_callback (st : state) (x y : double) : state :=
  if glfwGetInputMode (window st) GLFW_CURSOR =? GLFW_CURSOR_DISABLED then
    {| rotation :=
         mk_vec2
           (fadd (vec2_x (rotation st))
                 (fdiv (double_to_float (dsub x (cursorX st))) (float_of_Z 10)))
           (fadd (vec2_y (rotation st))
                 (fdiv (double_to_float (dsub y (cursorY st))) (float_of_Z 10)));
       zoom := zoom st;
       cursorX := x; cursorY := y; window := window st |}
  else st.

(** Lines 312-317. *)
Definition scroll_callback (st : state) (x y : double) : state :=
  let zoom1 := fadd (zoom st) (fdiv (double_to_float y) (float_of_Z 4)) in
  {| rotation := rotation st;
     zoom := if flt zoom1 (float_of_Z 0) then float_of_Z 0 else zoom1;
     cursorX := cursorX st; cursorY := cursorY st; window := window st |}.

(** The events [glfwPollEvents] dispatches to the registered callbacks. *)
Inductive event : Type :=
| KeyEvent (key scancode action mods : Z)
| MouseButtonEvent (button action mods : Z)
| CursorPosEvent (x y : double)
| ScrollEvent (x y : double).

(** A cursor event carries the position the window now reports. *)
Definition dispatch (st : state) (e : event) : state :=
  match e with
  | KeyEvent key scancode action mods => key_callback st key scancode action mods
  | MouseButtonEvent button action mods =>
      mouse_button_callback st button action mods
  | CursorPosEvent x y =>
      cursor_position_callback
        {| rotation := rotation st; zoom := zoom st;
           cursorX := cursorX st; cursorY := cursorY st;
           window := {| cursor_mode := cursor_mode (window st);
                        cursor_pos := (x, y);
                        should_close := should_close (window st) |} |}
        x y
  | ScrollEvent x y => scroll_callback st x y
  end.

Definition glfwPollEvents (st : state) (events : list event) : state :=
  fold_left dispatch events st.

(** The larger of two floating-point numbers, NaN when either is NaN (the
    [maximum] operation of IEEE 754). *)
Definition fmaximum (a b : spec_float) : spec_float :=
  if is_nan a || is_nan b then S754_nan
  else if flt a b then b else a.

(** The same number: equal under [==], or NaN on both sides. *)
Definition same_number (a b : spec_float) : bool :=
  feq a b || (is_nan a && is_nan b).

(** ** The OpenGL object store

    Shader and program objects as the OpenGL 4.6 specification describes
    them, as far as [createShaderProgram] observes them: names, attachment,
    deletion (immediate, or deferred while a shader is attached), and the
    errors the entry points raise on names that are no object.  The outcome
    of compiling and linking belongs to the driver and is an input. *)

Definition GL_FALSE : Z := 0.
Definition GL_TRUE : Z := 1.
Definition GL_INVALID_VALUE : Z := 0x0501.
Definition GL_INVALID_OPERATION : Z := 0x0502.
Definition GL_FRAGMENT_SHADER : Z := 0x8B30.
Definition GL_VERTEX_SHADER : Z := 0x8B31.
Definition GL_COMPILE_STATUS : Z := 0x8B81.
Definition GL_LINK_STATUS : Z := 0x8B82.
Definition GL_INFO_LOG_LENGTH : Z := 0x8B84.
Definition GL_PROGRAM_SEPARABLE : Z := 0x8258.
Definition GL_VERTEX_SHADER_BIT : Z := 0x00000001.
Definition GL_FRAGMENT_SHADER_BIT : Z := 0x00000002.

Inductive gl_call : Type :=
| CreateShader (type name : Z)
| ShaderSource (shader : Z) (source : string)
| CompileShader (shader : Z)
| GetShaderiv (shader pname : Z)
| GetShaderInfoLog (shader maxLength : Z)
| DeleteShader (shader : Z)
| CreateProgram (name : Z)
| ProgramParameteri (program pname value : Z)
| AttachShader (program shader : Z)
| LinkProgram (program : Z)
| GetProgramiv (program pname : Z)
| GetProgramInfoLog (program maxLength : Z)
| DeleteProgram (program : Z)
| DetachShader (program shader : Z)
| CreateProgramPipelines (name : Z)
| UseProgramStages (pipeline stages program : Z)
| DeleteProgramPipelines (pipeline : Z).

Record shader_object : Type := mk_shader {
  shader_type : Z;
  delete_status : bool;        (* flagged by glDeleteShader while attached *)
  compile_status : Z;
  shader_log_length : Z
}.

Record program_object : Type := mk_program {
  attached_shaders : list Z;
  separable : Z;
  link_status : Z;
  program_log_length : Z
}.

Record gl_state : Type := mk_gl {
  shader_objects : gmap Z shader_object;
  program_objects : gmap Z program_object;
  pipeline_objects : gmap Z Z;       (* pipeline, the program of its stages *)
  next_name : Z;
  gl_errors : list Z;
  gl_calls : list gl_call
}.

Definition gl_initial : gl_state :=
  {| shader_objects := ∅; program_objects := ∅; pipeline_objects := ∅;
     next_name := 1; gl_errors := []; gl_calls := [] |}.

(** What the driver answers: per shader stage the compile status and the
    length of the info log, and the same for the link. *)
Record driver : Type := mk_driver {
  compile_result : Z -> Z * Z;
  link_result : Z * Z
}.

(** Entry points run in a state monad over the object store. *)
Definition GL (A : Type) : Type := gl_state -> A * gl_state.

Definition gl_ret {A : Type} (a : A) : GL A := λ s, (a, s).

Definition gl_bind {A B : Type} (c : GL A) (k : A -> GL B) : GL B :=
  λ s, let '(a, s') := c s in k a s'.

Declare Scope gl_scope.
Delimit Scope gl_scope with gl.
Notation "'let*' x := c 'in' k" := (gl_bind c (λ x, k))
  (at level 10, x name, c at level 100, k at level 200) : gl_scope.
Notation "c ;; k" := (gl_bind c (λ _, k))
  (at level 100, k at level 200, right associativity) : gl_scope.

Definition gl_get : GL gl_state := λ s, (s, s).
Definition gl_put (s : gl_state) : GL unit := λ _, (tt, s).

Definition gl_log (c : gl_call) : GL unit := λ s,
  (tt, {| shader_objects := shader_objects s;
          program_objects := program_objects s;
          pipeline_objects := pipeline_objects s;
          next_name := next_name s; gl_errors := gl_errors s;
          gl_calls := gl_calls s ++ [c] |}).

Definition gl_error (e : Z) : GL unit := λ s,
  (tt, {| shader_objects := shader_objects s;
          program_objects := program_objects s;
          pipeline_objects := pipeline_objects s;
          next_name := next_name s; gl_errors := gl_errors s ++ [e];
          gl_calls := gl_calls s |}).

Definition set_shaders (m : gmap Z shader_object) : GL unit := λ s,
  (tt, {| shader_objects := m; program_objects := program_objects s;
          pipeline_objects := pipeline_objects s;
          next_name := next_name s; gl_errors := gl_errors s;
          gl_calls := gl_calls s |}).

Definition set_programs (m : gmap Z program_object) : GL unit := λ s,
  (tt, {| shader_objects := shader_objects s; program_objects := m;
          pipeline_objects := pipeline_objects s;
          next_name := next_name s; gl_errors := gl_errors s;
          gl_calls := gl_calls s |}).

Definition set_pipelines (m : gmap Z Z) : GL unit := λ s,
  (tt, {| shader_objects := shader_objects s;
          program_objects := program_objects s; pipeline_objects := m;
          next_name := next_name s; gl_errors := gl_errors s;
          gl_calls := gl_calls s |}).

Definition fresh_name : GL Z := λ s,
  (next_name s,
   {| shader_objects := shader_objects s;
      program_objects := program_objects s;
      pipeline_objects := pipeline_objects s;
      next_name := next_name s + 1; gl_errors := gl_errors s;
      gl_calls := gl_calls s |}).

Definition is_attached (shader : Z) (p : program_object) : bool :=
  existsb (Z.eqb shader) (attached_shaders p).

Definition attached_somewhere (s : gl_state) (shader : Z) : bool :=
  existsb (λ e, is_attached shader (snd e)) (map_to_list (program_objects s)).

(** A shader flagged for deletion goes once no program holds it. *)
Definition sweep_shaders : GL unit := λ s,
  set_shaders
    (filter (λ e, delete_status (snd e) = false ∨ attached_somewhere s (fst e) = true)
            (shader_objects s)) s.

Local Open Scope gl_scope.

Definition glCreateShader (type : Z) : GL Z :=
  let* name := fresh_name in
  let* s := gl_get in
  set_shaders (<[name := {| shader_type := type; delete_status := false;
                            compile_status := GL_FALSE;
                            shader_log_length := 0 |}]> (shader_objects s)) ;;
  gl_log (CreateShader type name) ;;
  gl_ret name.

Definition glShaderSource (shader : Z) (source : string) : GL unit :=
  gl_log (ShaderSource shader source) ;;
  let* s := gl_get in
  match shader_objects s !! shader with
  | Some _ => gl_ret tt
  | None => gl_error GL_INVALID_VALUE
  end.

(** [outcome] is what the driver makes of the source: the compile status and
    the length of the info log. *)
Definition glCompileShader (outcome : Z * Z) (shader : Z) : GL unit :=
  gl_log (CompileShader shader) ;;
  let* s := gl_get in
  match shader_objects s !! shader with
  | Some o =>
      let '(status, len) := outcome in
      set_shaders (<[shader := {| shader_type := shader_type o;
                                  delete_status := delete_status o;
                                  compile_status := status;
                                  shader_log_length := len |}]>
                     (shader_objects s))
  | None => gl_error GL_INVALID_VALUE
  end.

(** [glGetShaderiv(shader, pname, &out)]: the result is the value of [out]
    after the call; an error leaves [out] as it was. *)
Definition glGetShaderiv (shader pname out : Z) : GL Z :=
  gl_log (GetShaderiv shader pname) ;;
  let* s := gl_get in
  match shader_objects s !! shader with
  | Some o =>
      if pname =? GL_COMPILE_STATUS then gl_ret (compile_status o)
      else if pname =? GL_INFO_LOG_LENGTH then gl_ret (shader_log_length o)
      else gl_ret out
  | None => gl_error GL_INVALID_VALUE ;; gl_ret out
  end.

Definition glGetShaderInfoLog (shader maxLength : Z) : GL unit :=
  gl_log (GetShaderInfoLog shader maxLength) ;;
  let* s := gl_get in
  match shader_objects s !! shader with
  | Some _ => gl_ret tt
  | None => gl_error GL_INVALID_VALUE
  end.

Definition glDeleteShader (shader : Z) : GL unit :=
  gl_log (DeleteShader shader) ;;
  if shader =? 0 then gl_ret tt
  else
    let* s := gl_get in
    match shader_objects s !! shader with
    | Some o =>
        set_shaders (<[shader := {| shader_type := shader_type o;
                                    delete_status := true;
                                    compile_status := compile_status o;
                                    shader_log_length := shader_log_length o |}]>
                       (shader_objects s)) ;;
        sweep_shaders
    | None => gl_error GL_INVALID_VALUE
    end.

Definition glCreateProgram : GL Z :=
  let* name := fresh_name in
  let* s := gl_get in
  set_programs (<[name := {| attached_shaders := []; separable := GL_FALSE;
                             link_status := GL_FALSE;
                             program_log_length := 0 |}]> (program_objects s)) ;;
  gl_log (CreateProgram name) ;;
  gl_ret name.

Definition glProgramParameteri (program pname value : Z) : GL unit :=
  gl_log (ProgramParameteri program pname value) ;;
  let* s := gl_get in
  match program_objects s !! program with
  | Some p =>
      if pname =? GL_PROGRAM_SEPARABLE then
        set_programs (<[program := {| attached_shaders := attached_shaders p;
                                      separable := value;
                                      link_status := link_status p;
                                      program_log_length := program_log_length p |}]>
                        (program_objects s))
      else gl_ret tt
  | None => gl_error GL_INVALID_VALUE
  end.

Definition glAttachShader (program shader : Z) : GL unit :=
  gl_log (AttachShader program shader) ;;
  let* s := gl_get in
  match program_objects s !! program, shader_objects s !! shader with
  | Some p, Some _ =>
      if is_attached shader p then gl_error GL_INVALID_OPERATION
      else
        set_programs (<[program := {| attached_shaders := attached_shaders p ++ [shader];
                                      separable := separable p;
                                      link_status := link_status p;
                                      program_log_length := program_log_length p |}]>
                        (program_objects s))
  | _, _ => gl_error GL_INVALID_VALUE
  end.

Definition glLinkProgram (outcome : Z * Z) (program : Z) : GL unit :=
  gl_log (LinkProgram program) ;;
  let* s := gl_get in
  match program_objects s !! program with
  | Some p =>
      let '(status, len) := outcome in
      set_programs (<[program := {| attached_shaders := attached_shaders p;
                                    separable := separable p;
                                    link_status := status;
                                    program_log_length := len |}]>
                      (program_objects s))
  | None => gl_error GL_INVALID_VALUE
  end.

Definition glGetProgramiv (program pname out : Z) : GL Z :=
  gl_log (GetProgramiv program pname) ;;
  let* s := gl_get in
  match program_objects s !! program with
  | Some p =>
      if pname =? GL_LINK_STATUS then gl_ret (link_status p)
      else if pname =? GL_INFO_LOG_LENGTH then gl_ret (program_log_length p)
      else gl_ret out
  | None => gl_error GL_INVALID_VALUE ;; gl_ret out
  end.

Definition glGetProgramInfoLog (program maxLength : Z) : GL unit :=
  gl_log (GetProgramInfoLog program maxLength) ;;
  let* s := gl_get in
  match program_objects s !! program with
  | Some _ => gl_ret tt
  | None => gl_error GL_INVALID_VALUE
  end.

(** The program is current in no context when the builder runs, so the
    deletion takes effect at once; its shaders are detached. *)
Definition glDeleteProgram (program : Z) : GL unit :=
  gl_log (DeleteProgram program) ;;
  if program =? 0 then gl_ret tt
  else
    let* s := gl_get in
    match program_objects s !! program with
    | Some _ => set_programs (delete program (program_objects s)) ;; sweep_shaders
    | None => gl_error GL_INVALID_VALUE
    end.

Definition glDetachShader (program shader : Z) : GL unit :=
  gl_log (DetachShader program shader) ;;
  let* s := gl_get in
  match program_objects s !! program, shader_objects s !! shader with
  | Some p, Some _ =>
      if is_attached shader p then
        set_programs (<[program := {| attached_shaders :=
                                        filter (λ n, n ≠ shader) (attached_shaders p);
                                      separable := separable p;
                                      link_status := link_status p;
                                      program_log_length := program_log_length p |}]>
                        (program_objects s)) ;;
        sweep_shaders
      else gl_error GL_INVALID_OPERATION
  | _, _ => gl_error GL_INVALID_VALUE
  end.

Definition glCreateProgramPipelines : GL Z :=
  let* name := fresh_name in
  let* s := gl_get in
  set_pipelines (<[name := 0]> (pipeline_objects s)) ;;
  gl_log (CreateProgramPipelines name) ;;
  gl_ret name.

Definition glUseProgramStages (pipeline stages program : Z) : GL unit :=
  gl_log (UseProgramStages pipeline stages program) ;;
  let* s := gl_get in
  match pipeline_objects s !! pipeline with
  | None => gl_error GL_INVALID_OPERATION
  | Some _ =>
      if program =? 0 then set_pipelines (<[pipeline := 0]> (pipeline_objects s))
      else
        match program_objects s !! program with
        | None => gl_error GL_INVALID_VALUE
        | Some p =>
            if (link_status p =? GL_FALSE) || (separable p =? GL_FALSE)
            then gl_error GL_INVALID_OPERATION
            else set_pipelines (<[pipeline := program]> (pipeline_objects s))
        end
  end.

Definition glDeleteProgramPipelines (pipeline : Z) : GL unit :=
  gl_log (DeleteProgramPipelines pipeline) ;;
  let* s := gl_get in
  set_pipelines (delete pipeline (pipeline_objects s)).

(** ** The shader builder (main.cpp, lines 431-515) *)

(** Lines 473-493.  [NDEBUG] is the build configuration. *)
Definition checkShader (NDEBUG : bool) (shader : Z) : GL unit :=
  let* isCompiled := glGetShaderiv shader GL_COMPILE_STATUS GL_FALSE in
  let* maxLength := glGetShaderiv shader GL_INFO_LOG_LENGTH 0 in
  if (0 <? maxLength) && (if NDEBUG then isCompiled =? GL_FALSE else true)
  then
    glGetShaderInfoLog shader maxLength ;;
    glDeleteShader shader
  else gl_ret tt.

(** Lines 495-515. *)
Definition checkProgram (NDEBUG : bool) (program : Z) : GL unit :=
  let* isLinked := glGetProgramiv program GL_LINK_STATUS GL_FALSE in
  let* maxLength := glGetProgramiv program GL_INFO_LOG_LENGTH 0 in
  if (0 <? maxLength) && (if NDEBUG then isLinked =? GL_FALSE else true)
  then
    glGetProgramInfoLog program maxLength ;;
    glDeleteProgram program
  else gl_ret tt.

(** Lines 431-441. *)
Definition createShader (NDEBUG : bool) (d : driver) (source : string)
    (shaderType : Z) : GL Z :=
  let* shader := glCreateShader shaderType in
  glShaderSource shader source ;;
  glCompileShader (compile_result d shaderType) shader ;;
  checkShader NDEBUG shader ;;
  gl_ret shader.

Fixpoint for_each {A : Type} (l : list A) (body : A -> GL unit) : GL unit :=
  match l with
  | [] => gl_ret tt
  | a :: l' => body a ;; for_each l' body
  end.

(** Lines 443-471, on the first call (the function-local [static] reference
    [shaders] is bound then). *)
Definition createShaderProgram (NDEBUG : bool) (d : driver)
    (source : string * string) : GL (Z * Z) :=
  let* vs := createShader NDEBUG d (fst source) GL_VERTEX_SHADER in
  let* fs := createShader NDEBUG d (snd source) GL_FRAGMENT_SHADER in
  let shaders := [vs; fs] in
  let* program := glCreateProgram in
  glProgramParameteri program GL_PROGRAM_SEPARABLE GL_TRUE ;;
  for_each shaders (λ shader, glAttachShader program shader) ;;
  glLinkProgram (link_result d) program ;;
  checkProgram NDEBUG program ;;
  for_each shaders (λ shader,
    glDetachShader program shader ;;
    glDeleteShader shader) ;;
  let* pipeline := glCreateProgramPipelines in
  glUseProgramStages pipeline
    (Z.lor GL_VERTEX_SHADER_BIT GL_FRAGMENT_SHADER_BIT) program ;;
  gl_ret (program, pipeline).

(** Lines 256-257 of [main]: what shutdown does with the two handles. *)
Definition shutdown (handles : Z * Z) : GL unit :=
  glDeleteProgramPipelines (snd handles) ;;
  glDeleteProgram (fst handles).

Local Close Scope gl_scope.

(** How often the trace asks for the deletion of [shader], and for its
    detachment from [program]. *)
Definition is_DeleteShader (shader : Z) (c : gl_call) : bool :=
  match c with DeleteShader n => n =? shader | _ => false end.

Definition is_DetachShader (program shader : Z) (c : gl_call) : bool :=
  match c with
  | DetachShader p n => (p =? program) && (n =? shader)
  | _ => false
  end.

Definition is_DeleteProgram (program : Z) (c : gl_call) : bool :=
  match c with DeleteProgram n => n =? program | _ => false end.

Definition count_calls (f : gl_call -> bool) (s : gl_state) : nat :=
  length (List.filter f (gl_calls s)).

(** ** Scalars

    [camera] and the glm functions it calls are templates over the scalar
    type; they are written once, over the arithmetic they use.  The program
    instantiates them at [float]: the operations are those of binary32 and
    the elementary functions come from the C library. *)

Class Scalar (T : Type) : Type := mk_Scalar {
  literal : Z -> positive -> T;     (* the literal of value n/d *)
  s_add : T -> T -> T;
  s_sub : T -> T -> T;
  s_mul : T -> T -> T;
  s_div : T -> T -> T;
  s_neg : T -> T;
  s_cos : T -> T;
  s_sin : T -> T;
  s_tan : T -> T;
  s_sqrt : T -> T;
  deg_to_rad : T                    (* 0.01745329251994329576923690768489 *)
}.

Declare Scope scalar_scope.
Delimit Scope scalar_scope with S.
Infix "+" := s_add : scalar_scope.
Infix "-" := s_sub : scalar_scope.
Infix "*" := s_mul : scalar_scope.
Infix "/" := s_div : scalar_scope.
Notation "- a" := (s_neg a) : scalar_scope.

(** The elementary functions of the C library on [float]. *)
Record libm : Type := mk_libm {
  cosf : float -> float;
  sinf : float -> float;
  tanf : float -> float
}.

Definition float_scalar (m : libm) : Scalar float :=
  {| literal n d := fdiv (float_of_Z n) (float_of_Z (Zpos d));
     s_add := fadd; s_sub := fsub; s_mul := fmul; s_div := fdiv;
     s_neg := fneg;
     s_cos := cosf m; s_sin := sinf m; s_tan := tanf m;
     s_sqrt := fsqrt;
     deg_to_rad := S754_finite false 9370165 (-29) |}.

(** ** glm, as far as [camera] calls it *)

Section glm.

Context {T : Type} `{Scalar T}.

Local Open Scope scalar_scope.

Definition s0 : T := literal 0 1.
Definition s1 : T := literal 1 1.
Definition s2 : T := literal 2 1.

(** [v * s] and [a + b] on [vec4]. *)
Definition vec4_scale (v : vec4 T) (s : T) : vec4 T :=
  mk_vec4 (vec4_x v * s) (vec4_y v * s) (vec4_z v * s) (vec4_w v * s).

Definition vec4_add (a b : vec4 T) : vec4 T :=
  mk_vec4 (vec4_x a + vec4_x b) (vec4_y a + vec4_y b)
          (vec4_z a + vec4_z b) (vec4_w a + vec4_w b).

(** [mat4(s)]: [s] on the diagonal. *)
Definition mat4_diag (s : T) : mat4 T :=
  mk_mat4 (mk_vec4 s s0 s0 s0) (mk_vec4 s0 s s0 s0)
          (mk_vec4 s0 s0 s s0) (mk_vec4 s0 s0 s0 s).

(** [m1 * m2]. *)
Definition mat4_mul_col (m1 : mat4 T) (b : vec4 T) : vec4 T :=
  vec4_add
    (vec4_add
       (vec4_add (vec4_scale (mat4_c0 m1) (vec4_x b))
                 (vec4_scale (mat4_c1 m1) (vec4_y b)))
       (vec4_scale (mat4_c2 m1) (vec4_z b)))
    (vec4_scale (mat4_c3 m1) (vec4_w b)).

Definition mat4_mul (m1 m2 : mat4 T) : mat4 T :=
  mk_mat4 (mat4_mul_col m1 (mat4_c0 m2)) (mat4_mul_col m1 (mat4_c1 m2))
          (mat4_mul_col m1 (mat4_c2 m2)) (mat4_mul_col m1 (mat4_c3 m2)).

Definition radians (degrees : T) : T := degrees * deg_to_rad.

(** [glm::perspective] under [GLM_FORCE_DEPTH_ZERO_TO_ONE], right-handed
    ([perspectiveRH_ZO]). *)
Definition perspective (fovy aspect zNear zFar : T) : mat4 T :=
  let tanHalfFovy := s_tan (fovy / s2) in
  mk_mat4
    (mk_vec4 (s1 / (aspect * tanHalfFovy)) s0 s0 s0)
    (mk_vec4 s0 (s1 / tanHalfFovy) s0 s0)
    (mk_vec4 s0 s0 (zFar / (zNear - zFar)) (- s1))
    (mk_vec4 s0 s0 (- (zFar * zNear) / (zFar - zNear)) s0).

(** [glm::translate(m, v)]. *)
Definition translate (m : mat4 T) (v : vec3 T) : mat4 T :=
  mk_mat4 (mat4_c0 m) (mat4_c1 m) (mat4_c2 m)
    (vec4_add
       (vec4_add
          (vec4_add (vec4_scale (mat4_c0 m) (vec3_x v))
                    (vec4_scale (mat4_c1 m) (vec3_y v)))
          (vec4_scale (mat4_c2 m) (vec3_z v)))
       (mat4_c3 m)).

Definition dot3 (a b : vec3 T) : T :=
  vec3_x a * vec3_x b + vec3_y a * vec3_y b + vec3_z a * vec3_z b.

Definition inversesqrt (x : T) : T := s1 / s_sqrt x.

Definition normalize (v : vec3 T) : vec3 T :=
  let k := inversesqrt (dot3 v v) in
  mk_vec3 (vec3_x v * k) (vec3_y v * k) (vec3_z v * k).

(** [glm::rotate(m, angle, v)]. *)
Definition rotate (m : mat4 T) (angle : T) (v : vec3 T) : mat4 T :=
  let c := s_cos angle in
  let s := s_sin angle in
  let axis := normalize v in
  let temp := mk_vec3 ((s1 - c) * vec3_x axis) ((s1 - c) * vec3_y axis)
                      ((s1 - c) * vec3_z axis) in
  let r00 := c + vec3_x temp * vec3_x axis in
  let r01 := vec3_x temp * vec3_y axis + s * vec3_z axis in
  let r02 := vec3_x temp * vec3_z axis - s * vec3_y axis in
  let r10 := vec3_y temp * vec3_x axis - s * vec3_z axis in
  let r11 := c + vec3_y temp * vec3_y axis in
  let r12 := vec3_y temp * vec3_z axis + s * vec3_x axis in
  let r20 := vec3_z temp * vec3_x axis + s * vec3_y axis in
  let r21 := vec3_z temp * vec3_y axis - s * vec3_x axis in
  let r22 := c + vec3_z temp * vec3_z axis in
  let combine a b c' :=
    vec4_add (vec4_add (vec4_scale (mat4_c0 m) a) (vec4_scale (mat4_c1 m) b))
             (vec4_scale (mat4_c2 m) c') in
  mk_mat4 (combine r00 r01 r02) (combine r10 r11 r12) (combine r20 r21 r22)
          (mat4_c3 m).

(** ** [camera] (main.cpp, lines 517-527) *)

Definition WIDTH : Z := 1920.
Definition HEIGHT : Z := 1080.

Definition camera (zoom : T) (rotate' : vec2 T) : mat4 T :=
  let aspectRatio := literal WIDTH 1 / literal HEIGHT 1 in
  let Projection :=
    perspective (radians (literal 45 1)) aspectRatio
                (literal 1 10) (literal 100 1) in
  let View := translate (mat4_diag s1) (mk_vec3 s0 s0 (- zoom)) in
  let View := rotate View (radians (vec2_y rotate')) (mk_vec3 s1 s0 s0) in
  let View := rotate View (radians (vec2_x rotate')) (mk_vec3 s0 s1 s0) in
  let Model := mat4_diag s1 in
  mat4_mul (mat4_mul Projection View) Model.





End glm.

(** ** One iteration of the frame loop (main.cpp, lines 218-254) *)

Definition GL_COLOR : Z := 0x1800.
Definition GL_DEPTH : Z := 0x1801.
Definition GL_TRIANGLES : Z := 0x0004.
Definition GL_UNSIGNED_INT : Z := 0x1405.
Definition GL_UNIFORM_BUFFER : Z := 0x8A11.
Definition GL_SHADER_STORAGE_BUFFER : Z := 0x90D2.
Definition GL_MAP_WRITE_BIT : Z := 0x0002.
Definition GL_MAP_INVALIDATE_BUFFER_BIT : Z := 0x0008.

(** The handles set up before the loop (lines 190-208). *)
Record resources : Type := mk_resources {
  pipeline : Z;
  vao : Z;
  tex : Z;
  buffer_VERTEX : Z;
  buffer_ELEMENT : Z;
  buffer_TRANSFORM : Z;
  blockSize : Z
}.

(** The locals of lines 214-216. *)
Record timing : Type := mk_timing {
  currentFrame : float;
  deltaTime : float;
  lastFrame : float;
  time : float;
  fps : Z
}.

Inductive frame_call : Type :=
| SetWindowTitle (title : string)
| MapNamedBufferRange (buffer offset length access : Z)
| StoreMVP (MVP : mat4 float)
| UnmapNamedBuffer (buffer : Z)
| ClearBufferfv (buffer drawbuffer : Z) (value : vec4 float)
| BindProgramPipeline (pipeline : Z)
| BindVertexArray (array : Z)
| BindTextureUnit (unit texture : Z)
| BindBufferBase (target index buffer : Z)
| DrawElementsInstanced (mode count type indices instancecount : Z)
| SwapBuffers
| PollEvents.

(** Lines 221-232: the frame counter. *)
Definition tick (t : timing) (now : double) : timing * list frame_call :=
  let currentFrame := double_to_float now in
  let deltaTime := fsub currentFrame (lastFrame t) in
  let lastFrame := currentFrame in
  let time := fadd (time t) deltaTime in
  let fps := to_uint32 (fps t + 1) in
  if fge time (float_of_Z 1) then
    ({| currentFrame := currentFrame; deltaTime := deltaTime;
        lastFrame := lastFrame; time := fsub time (float_of_Z 1); fps := 0 |},
     [SetWindowTitle ("FPS: " +:+ pretty fps)])
  else
    ({| currentFrame := currentFrame; deltaTime := deltaTime;
        lastFrame := lastFrame; time := time; fps := fps |}, []).

(** Lines 234-252: the calls that draw the frame.  They read [zoom],
    [rotation] and [indices]. *)
Definition render (m : libm) (r : resources) (g : model) (st : state)
  : list frame_call :=
  let one := literal (Scalar := float_scalar m) 1 1 in
  [ MapNamedBufferRange (buffer_TRANSFORM r) 0 (blockSize r)
      (Z.lor GL_MAP_WRITE_BIT GL_MAP_INVALIDATE_BUFFER_BIT);
    StoreMVP (camera (H := float_scalar m) (zoom st) (rotation st));
    UnmapNamedBuffer (buffer_TRANSFORM r);
    ClearBufferfv GL_COLOR 0
      (mk_vec4 (literal (Scalar := float_scalar m) 26 100)
               (literal (Scalar := float_scalar m) 33 100)
               (literal (Scalar := float_scalar m) 46 100) one);
    ClearBufferfv GL_DEPTH 0 (mk_vec4 one one one one);
    BindProgramPipeline (pipeline r);
    BindVertexArray (vao r);
    BindTextureUnit 1 (tex r);
    BindBufferBase GL_UNIFORM_BUFFER 1 (buffer_TRANSFORM r);
    BindBufferBase GL_SHADER_STORAGE_BUFFER 0 (buffer_VERTEX r);
    DrawElementsInstanced GL_TRIANGLES
      (to_int32 (Z.of_nat (length (indices g)))) GL_UNSIGNED_INT 0 1;
    SwapBuffers ].

(** The body of the [while] loop: [now] is what [glfwGetTime] returns and
    [events] what the window system has queued for [glfwPollEvents]. *)
Definition frame (m : libm) (r : resources) (g : model) (now : double)
    (events : list event) (s : state * timing)
  : (state * timing) * list frame_call :=
  let '(st, t) := s in
  let '(t', title) := tick t now in
  ((glfwPollEvents st events, t'), title ++ render m r g st ++ [PollEvents]).

Definition is_draw (c : frame_call) : bool :=
  match c with DrawElementsInstanced _ _ _ _ _ => true | _ => false end.

(** ** Auxiliary notions for the loader *)

(** The vertex the loader builds from an attribute combination. *)
Definition vertex_of (c : combination) : Vertex :=
  {| position := mk_vec4 (vec3_x (fst c)) (vec3_y (fst c)) (vec3_z (fst c)) one;
     color := mk_vec4 one one one one;
     texcoord := snd c |}.

(** The candidate vertices of a mesh, one per face corner, in file order. *)
Definition candidates (attrib : tinyobj.attrib_t)
    (shapes : list tinyobj.shape_t) : option (list Vertex) :=
  mapM (make_vertex attrib) (corners shapes).

(** The loop body applied to a list of candidates. *)
Definition push_all (cs : list Vertex) (st : unordered_map * model)
  : unordered_map * model :=
  fold_left push_vertex cs st.

Definition known (keys : list Vertex) (v : Vertex) : bool :=
  existsb (λ k, Vertex_eq k v) keys.

(** The candidates that equal neither a key nor an earlier candidate. *)
Fixpoint firsts (keys : list Vertex) (cs : list Vertex) : list Vertex :=
  match cs with
  | [] => []
  | c :: cs' =>
      if known keys c then firsts keys cs' else c :: firsts (keys ++ [c]) cs'
  end.

(** The vertex stream the index list stands for. *)
Definition expand (g : model) : list (option Vertex) :=
  map (λ i, vertices g !! Z.to_nat i) (indices g).

(** An index that points into the vertex list, and a loop state in which the
    table and the index list hold only such indices. *)
Definition in_bounds (g : model) (i : Z) : Prop :=
  0 <= i < Z.of_nat (length (vertices g)).

Definition bounded_state (st : unordered_map * model) : Prop :=
  Forall (λ e, in_bounds (snd st) (snd e)) (fst st)
  /\ Forall (in_bounds (snd st)) (indices (snd st)).


(** A table whose entries name the slot of the vertex list that holds their
    key, and an index that resolves to a vertex equal to a candidate. *)
Definition faithful_table (st : unordered_map * model) : Prop :=
  Forall (λ e, Vertex_eq (fst e) (fst e) = true ->
               vertices (snd st) !! Z.to_nat (snd e) = Some (fst e)) (fst st).

Definition resolves (g : model) (i : Z) (c : Vertex) : Prop :=
  vertex_has_nan c = false ->
  exists v, vertices g !! Z.to_nat i = Some v /\ Vertex_eq v c = true.

(** ** Sample meshes *)

Definition corner (vi ti : Z) : tinyobj.index_t :=
  {| tinyobj.vertex_index := vi; tinyobj.normal_index := -1;
     tinyobj.texcoord_index := ti |}.

Definition one_shape (l : list tinyobj.index_t) : list tinyobj.shape_t :=
  [ {| tinyobj.mesh := {| tinyobj.indices := l |} |} ].

(** Three faces around a common corner: nine face corners on six points. *)
Definition fan_attrib : tinyobj.attrib_t :=
  {| tinyobj.vertices :=
       map float_of_Z [0; 0; 0;  1; 0; 0;  0; 1; 0;  -1; 0; 0;  0; -1; 0;  1; -1; 0];
     tinyobj.normals := [];
     tinyobj.texcoords :=
       map float_of_Z [0; 0;  1; 0;  0; 1;  1; 1;  2; 0;  2; 1] |}.

Definition fan_shapes : list tinyobj.shape_t :=
  one_shape [ corner 0 0; corner 1 1; corner 2 2;
              corner 0 0; corner 2 2; corner 3 3;
              corner 0 0; corner 4 4; corner 5 5 ].

(** One triangle. *)
Definition triangle_attrib : tinyobj.attrib_t :=
  {| tinyobj.vertices := map float_of_Z [0; 0; 0;  1; 0; 0;  0; 1; 0];
     tinyobj.normals := [];
     tinyobj.texcoords := map float_of_Z [0; 0;  1; 0;  0; 1] |}.

Definition triangle_shapes : list tinyobj.shape_t :=
  one_shape [ corner 0 0; corner 1 1; corner 2 2 ].

(** One triangle of a file without texture coordinates: tinyobjloader sets
    the [texcoord_index] of its corners to -1. *)
Definition bare_attrib : tinyobj.attrib_t :=
  {| tinyobj.vertices := map float_of_Z [0; 0; 0;  1; 0; 0;  0; 1; 0];
     tinyobj.normals := [];
     tinyobj.texcoords := [] |}.

Definition bare_shapes : list tinyobj.shape_t :=
  one_shape [ corner 0 (-1); corner 1 (-1); corner 2 (-1) ].

(** Two face corners on two points, the second with a NaN abscissa. *)
Definition nan_attrib : tinyobj.attrib_t :=
  {| tinyobj.vertices :=
       [float_of_Z 1; float_of_Z 2; float_of_Z 3;
        S754_nan; float_of_Z 0; float_of_Z 0];
     tinyobj.normals := [];
     tinyobj.texcoords := [float_of_Z 0; float_of_Z 0] |}.

Definition nan_shapes : list tinyobj.shape_t :=
  one_shape [ corner 0 0; corner 1 0 ].

(** The point with the NaN abscissa, referred to twice. *)
Definition nan_twice_shapes : list tinyobj.shape_t :=
  one_shape [ corner 1 0; corner 1 0 ].

(** A floating-point value that is a number: neither NaN nor an infinity. *)
Definition is_finite (f : spec_float) : bool :=
  match f with S754_zero _ | S754_finite _ _ _ => true | _ => false end.

(** The rotation after one cursor event at [(x, y)], measured from the
    reference point [(x0, y0)]. *)
Definition rotated (r : vec2 float) (x0 y0 x y : double) : vec2 float :=
  mk_vec2
    (fadd (vec2_x r) (fdiv (double_to_float (dsub x x0)) (float_of_Z 10)))
    (fadd (vec2_y r) (fdiv (double_to_float (dsub y y0)) (float_of_Z 10))).

Definition drag_active (st : state) : bool :=
  cursor_mode (window st) =? GLFW_CURSOR_DISABLED.

Definition moves (l : list (double * double)) : list event :=
  map (λ p, CursorPosEvent (fst p) (snd p)) l.

Definition same_vec2 (a b : vec2 float) : bool :=
  same_number (vec2_x a) (vec2_x b) && same_number (vec2_y a) (vec2_y b).

(** A window with the cursor free at (100, 50). *)
Definition sample_window : GLFWwindow :=
  {| cursor_mode := GLFW_CURSOR_NORMAL;
     cursor_pos := (double_of_Z 100, double_of_Z 50);
     should_close := false |}.

(** ** Sample drivers *)

(** Whether the check of [checkShader] / [checkProgram] runs its branch. *)
Definition check_fires (NDEBUG : bool) (status length : Z) : bool :=
  (0 <? length) && (if NDEBUG then status =? GL_FALSE else true).

(** Everything compiles and links; the compiler leaves a 20-character
    warning in the info log of the vertex shader. *)
Definition warning_driver : driver :=
  {| compile_result := λ type, if type =? GL_VERTEX_SHADER then (GL_TRUE, 20)
                               else (GL_TRUE, 0);
     link_result := (GL_TRUE, 0) |}.

(** Everything compiles and links; the linker leaves a 30-character note. *)
Definition link_note_driver : driver :=
  {| compile_result := λ _, (GL_TRUE, 0); link_result := (GL_TRUE, 30) |}.

(** The fragment shader fails to compile, with a message. *)
Definition failing_driver : driver :=
  {| compile_result := λ type, if type =? GL_FRAGMENT_SHADER then (GL_FALSE, 57)
                               else (GL_TRUE, 0);
     link_result := (GL_FALSE, 0) |}.

Definition sources : string * string := ("vs_source", "fs_source").

(** [createShaderProgram] followed, at the end of [main], by the deletion of
    the two handles: the state at the return and the state at exit. *)
Definition build_then_shutdown (NDEBUG : bool) (d : driver)
  : (Z * Z) * gl_state * gl_state :=
  let '(handles, s) := createShaderProgram NDEBUG d sources gl_initial in
  (handles, s, snd (shutdown handles s)).

(** ** The camera in binary32: the product it is described as

    The perspective of [camera] and the product Perspective x Translate x
    RotateX x RotateY x Identity of the five matrices, computed in binary32
    with [operator*] grouping from the left, and with the grouping from the
    right. *)










(* ================================================================== *)
(** * Further parts of [main.cpp]                                      *)
(* ================================================================== *)

(** ** [std::hash<Vertex>] (main.cpp, lines 63-71)

    [size_t] has 64 bits.  [std::hash<float>] belongs to the C++ library
    and is a parameter; the hashes of glm vectors fold it over the
    components with glm's [hash_combine]. *)

Definition to_size_t (z : Z) : Z := z mod 2 ^ 64.

(** [hash += 0x9e3779b9 + (seed << 6) + (seed >> 2); seed ^= hash]. *)
Definition hash_combine (seed hash : Z) : Z :=
  let hash :=
    to_size_t
      (hash + to_size_t (to_size_t (0x9e3779b9 + to_size_t (Z.shiftl seed 6))
                         + Z.shiftr seed 2)) in
  Z.lxor seed hash.

Definition hash_vec2 (hash_float : float -> Z) (v : vec2 float) : Z :=
  let seed := 0 in
  let seed := hash_combine seed (hash_float (vec2_x v)) in
  let seed := hash_combine seed (hash_float (vec2_y v)) in
  seed.

Definition hash_vec3 (hash_float : float -> Z) (v : vec3 float) : Z :=
  let seed := 0 in
  let seed := hash_combine seed (hash_float (vec3_x v)) in
  let seed := hash_combine seed (hash_float (vec3_y v)) in
  let seed := hash_combine seed (hash_float (vec3_z v)) in
  seed.

(** The conversion of a [vec4] to the [vec3] that [hash<glm::vec3>] takes. *)
Definition vec3_of_vec4 (v : vec4 float) : vec3 float :=
  mk_vec3 (vec4_x v) (vec4_y v) (vec4_z v).

Definition hash_Vertex (hash_float : float -> Z) (vertex : Vertex) : Z :=
  Z.lxor
    (Z.shiftr
       (Z.lxor (hash_vec3 hash_float (vec3_of_vec4 (position vertex)))
               (to_size_t
                  (Z.shiftl (hash_vec3 hash_float (vec3_of_vec4 (color vertex))) 1)))
       1)
    (to_size_t (Z.shiftl (hash_vec2 hash_float (texcoord vertex)) 1)).

(** A hash of [float] as the C++ libraries have it: the two zeros, which
    compare equal, hash alike; otherwise the representation decides. *)
Definition sample_hash_float (f : float) : Z :=
  match f with
  | S754_zero _ => 0
  | S754_infinity s => if s then 1 else 2
  | S754_nan => 3
  | S754_finite s m e => to_size_t (Z.pos m * 2 + (if s then 1 else 0) + e * 2 ^ 32)
  end.

(** ** Auxiliary notions for the loader, continued *)

(** No two slots of a vertex list hold vertices that compare equal. *)
Definition no_duplicates (vs : list Vertex) : Prop :=
  forall i j a b, vs !! i = Some a -> vs !! j = Some b -> i <> j ->
                  Vertex_eq a b = false.

(** The candidates that compare unequal to every candidate read before
    them, in the order of the file; [earlier] holds the candidates read so
    far, kept or not. *)
Fixpoint first_references (earlier cs : list Vertex) : list Vertex :=
  match cs with
  | [] => []
  | c :: cs' =>
      if known earlier c
      then first_references (earlier ++ [c]) cs'
      else c :: first_references (earlier ++ [c]) cs'
  end.

Definition shift_index (n : nat) (i : Z) : Z := Z.of_nat n + i.

(** The table of a run whose vertex list starts [n] slots later. *)
Definition shift_table (n : nat) (m : unordered_map) : unordered_map :=
  map (λ e, (fst e, shift_index n (snd e))) m.

(** The lists the one-triangle mesh loads to. *)
Definition triangle_model : model :=
  default empty_model (loadModel triangle_attrib triangle_shapes empty_model).

(** ** Auxiliary notions for the input callbacks *)

Definition is_escape_press (e : event) : bool :=
  match e with
  | KeyEvent key _ action _ => (key =? GLFW_KEY_ESCAPE) && (action =? GLFW_PRESS)
  | _ => false
  end.

Definition is_scroll (e : event) : bool :=
  match e with ScrollEvent _ _ => true | _ => false end.

Definition is_pointer (e : event) : bool :=
  match e with
  | MouseButtonEvent _ _ _ | CursorPosEvent _ _ => true
  | _ => false
  end.

(** The action of the last event of the left button, if there is one. *)
Fixpoint last_left_action (events : list event) : option Z :=
  match events with
  | [] => None
  | e :: events' =>
      match last_left_action events' with
      | Some a => Some a
      | None =>
          match e with
          | MouseButtonEvent button action _ =>
              if button =? GLFW_MOUSE_BUTTON_LEFT then Some action else None
          | _ => None
          end
      end
  end.

(** While the cursor is captured, the reference point is the position the
    window reports. *)
Definition reference_tracks_cursor (st : state) : Prop :=
  drag_active st = true -> (cursorX st, cursorY st) = cursor_pos (window st).

(** Two states that differ at most in [zoom] and in the close flag. *)
Definition same_pointer_state (a b : state) : Prop :=
  rotation a = rotation b /\ cursorX a = cursorX b /\ cursorY a = cursorY b
  /\ cursor_mode (window a) = cursor_mode (window b)
  /\ cursor_pos (window a) = cursor_pos (window b).

(** The cursor mode that the action of a left-button event leaves. *)
Definition mode_after (action : Z) : Z :=
  if action =? GLFW_PRESS then GLFW_CURSOR_DISABLED else GLFW_CURSOR_NORMAL.

(** ** Auxiliary notions for the shader builder *)

Definition program_alive (s : gl_state) (program : Z) : bool :=
  match program_objects s !! program with Some _ => true | None => false end.

Definition error_free (s : gl_state) : bool :=
  match gl_errors s with [] => true | _ => false end.

(** Whether the three checks of a build run their branch. *)
Definition vertex_check_fires (NDEBUG : bool) (d : driver) : bool :=
  check_fires NDEBUG (fst (compile_result d GL_VERTEX_SHADER))
              (snd (compile_result d GL_VERTEX_SHADER)).

Definition fragment_check_fires (NDEBUG : bool) (d : driver) : bool :=
  check_fires NDEBUG (fst (compile_result d GL_FRAGMENT_SHADER))
              (snd (compile_result d GL_FRAGMENT_SHADER)).

Definition link_check_fires (NDEBUG : bool) (d : driver) : bool :=
  check_fires NDEBUG (fst (link_result d)) (snd (link_result d)).

Definition linked (d : driver) : bool := negb (fst (link_result d) =? GL_FALSE).

(** ** [createTexture2D] and [loadTexture] (main.cpp, lines 371-429) *)

Definition GL_TEXTURE_2D : Z := 0x0DE1.
Definition GL_TEXTURE_MAG_FILTER : Z := 0x2800.
Definition GL_TEXTURE_MIN_FILTER : Z := 0x2801.
Definition GL_TEXTURE_WRAP_S : Z := 0x2802.
Definition GL_TEXTURE_WRAP_T : Z := 0x2803.
Definition GL_LINEAR : Z := 0x2601.
Definition GL_REPEAT : Z := 0x2901.
Definition GL_UNSIGNED_BYTE : Z := 0x1401.

(** What [stbi_load] leaves behind: the decoded bytes, or none when decoding
    fails, and the values of [w], [h] and [c] after the call (on failure
    they are whatever the three variables held). *)
Record stbi_image : Type := mk_image {
  image_data : option (list Z);
  image_w : Z;
  image_h : Z;
  image_c : Z
}.

Inductive texture_call : Type :=
| SetFlipVerticallyOnLoad (flag : bool)
| StbiLoad (filename : string) (req_comp : Z)
| CreateTextures (target name : Z)
| TextureStorage2D (texture levels internalformat width height : Z)
| TextureParameteri (texture pname param : Z)
| TextureSubImage2D (texture level xoffset yoffset width height format type : Z)
                    (pixels : list Z)
| GenerateTextureMipmap (texture : Z)
| StbiImageFree (pixels : option (list Z)).

(** Lines 371-400.  [textureId] is the name [glCreateTextures] returns. *)
Definition createTexture2D (textureId : Z)
    (internalformat width height format : Z) (data : option (list Z))
    (minFilter magFilter wrapMode : Z) : list texture_call * Z :=
  ([ CreateTextures GL_TEXTURE_2D textureId;
     TextureStorage2D textureId 1 internalformat width height;
     TextureParameteri textureId GL_TEXTURE_MIN_FILTER minFilter;
     TextureParameteri textureId GL_TEXTURE_MAG_FILTER magFilter;
     TextureParameteri textureId GL_TEXTURE_WRAP_S wrapMode;
     TextureParameteri textureId GL_TEXTURE_WRAP_T wrapMode ]
   ++ match data with
      | Some pixels =>
          [ TextureSubImage2D textureId 0 0 0 width height format
              GL_UNSIGNED_BYTE pixels ]
      | None => []
      end
   ++ [ GenerateTextureMipmap textureId ],
   textureId).

(** Lines 402-429.  [image] is what [stbi_load] makes of the file. *)
Definition loadTexture (textureId : Z) (filename : string) (comp : Z)
    (image : stbi_image) : list texture_call * Z :=
  let data := image_data image in
  let '(in_, ex) := loadTexture_format comp in
  let '(calls, name) :=
    createTexture2D textureId in_ (image_w image) (image_h image) ex data
                    GL_LINEAR GL_LINEAR GL_REPEAT in
  ([ SetFlipVerticallyOnLoad true; StbiLoad filename comp ]
   ++ calls ++ [ StbiImageFree data ],
   name).

(** The number of components of a pixel in a transfer format. *)
Definition format_components (format : Z) : Z :=
  if format =? GL_RED then 1
  else if format =? GL_RG then 2
  else if format =? GL_RGB then 3
  else if format =? GL_RGBA then 4
  else 0.

(** The bytes OpenGL takes from client memory for an image of unsigned bytes
    under the initial pixel store state, which main.cpp never changes: rows
    start at multiples of [GL_UNPACK_ALIGNMENT = 4]. *)
Definition unpack_row_stride (components width : Z) : Z :=
  4 * ((components * width + 3) / 4).

Definition unpack_bytes (components width height : Z) : Z :=
  if (width <=? 0) || (height <=? 0) then 0
  else (height - 1) * unpack_row_stride components width + components * width.

Definition upload_bytes (c : texture_call) : Z :=
  match c with
  | TextureSubImage2D _ _ _ _ width height format _ _ =>
      unpack_bytes (format_components format) width height
  | _ => 0
  end.

Definition is_upload (c : texture_call) : bool :=
  match c with TextureSubImage2D _ _ _ _ _ _ _ _ _ => true | _ => false end.

(** The channels per pixel in the buffer [stbi_load] returns: those asked
    for, or those of the file when [STBI_default] is asked for. *)
Definition decoded_channels (comp : Z) (image : stbi_image) : Z :=
  if comp =? STBI_default then image_c image else comp.

(** A decoded image as [stbi_load] delivers it: [w * h] pixels, rows packed
    without gaps. *)
Definition well_decoded (comp : Z) (image : stbi_image) (pixels : list Z) : Prop :=
  image_data image = Some pixels
  /\ 0 < image_w image /\ 0 < image_h image
  /\ 1 <= image_c image <= 4
  /\ Z.of_nat (length pixels)
     = image_w image * image_h image * decoded_channels comp image.

Definition sample_image (w h c comp : Z) : stbi_image :=
  {| image_data := Some (repeat 255 (Z.to_nat (w * h * (if comp =? 0 then c else comp))));
     image_w := w; image_h := h; image_c := c |}.

(** ** [main] (main.cpp, lines 150-266) *)

Definition GLFW_FALSE : Z := 0.
Definition GLFW_RESIZABLE : Z := 0x00020003.
Definition GLFW_CONTEXT_VERSION_MAJOR : Z := 0x00022002.
Definition GLFW_CONTEXT_VERSION_MINOR : Z := 0x00022003.
Definition GLFW_OPENGL_PROFILE : Z := 0x00022008.
Definition GLFW_OPENGL_CORE_PROFILE : Z := 0x00032001.
Definition GL_UNIFORM_BUFFER_OFFSET_ALIGNMENT : Z := 0x8A34.
Definition GL_MAP_PERSISTENT_BIT : Z := 0x0040.
Definition GL_MAP_COHERENT_BIT : Z := 0x0080.
Definition GL_DEPTH_TEST : Z := 0x0B71.
Definition GL_LEQUAL : Z := 0x0203.

(** [sizeof]: a [mat4] of floats; two [vec4] and a [vec2] padded to the
    alignment of 16; a [uint32_t]. *)
Definition sizeof_UniformBufferObject : Z := 64.
Definition sizeof_Vertex : Z := 48.
Definition sizeof_uint32_t : Z := 4.

(** A [size_t] passed as [GLsizeiptr]. *)
Definition to_GLsizeiptr (z : Z) : Z := (z + 2 ^ 63) mod 2 ^ 64 - 2 ^ 63.

(** What the world outside answers to [main]: the build configuration, the
    results of the calls into GLFW, glad, the OpenGL driver, tinyobjloader
    and stb_image, and for each pass of the loop the time, the events the
    window system has queued and whether the user asked the window to
    close. *)
Record environment : Type := mk_environment {
  env_NDEBUG : bool;
  env_glfwInit : bool;
  env_glfwCreateWindow : option GLFWwindow;
  env_gladLoadGLLoader : bool;
  env_framebuffer : Z * Z;
  env_driver : driver;
  env_attrib : tinyobj.attrib_t;
  env_shapes : list tinyobj.shape_t;
  env_alignment : Z;
  env_buffers : Z * Z * Z;
  env_vao : Z;
  env_tex : Z;
  env_image : stbi_image;
  env_time : double;
  env_frames : list (double * list event * bool)
}.

Inductive main_call : Type :=
| Init
| SetErrorCallback
| WindowHint (hint value : Z)
| CreateWindow (width height : Z) (title : string)
| Terminate
| MakeContextCurrent
| SetKeyCallback
| SetMouseButtonCallback
| SetCursorPosCallback
| SetScrollCallback
| LoadGLLoader
| GetFramebufferSize
| Viewport (x y width height : Z)
| Build (c : gl_call)
| LoadObj (filename : string)
| GetIntegerv (pname : Z)
| CreateBuffers (names : list Z)
| NamedBufferStorage (buffer size flags : Z)
| CreateVertexArrays (name : Z)
| VertexArrayElementBuffer (vaobj buffer : Z)
| Texture (c : texture_call)
| Enable (cap : Z)
| DepthFunc (func : Z)
| Frame (c : frame_call)
| DeleteVertexArrays (name : Z)
| DeleteBuffers (names : list Z)
| DeleteTextures (name : Z)
| DestroyWindow.

(** How [main] ends: with a return value; in the undefined behaviour of
    [loadModel] reading outside an attribute array; or not within the passes
    the environment describes. *)
Inductive outcome : Type :=
| Returns (code : Z)
| Undefined
| Running.

(** The calls a command adds to the trace of the object store. *)
Definition calls_of {A : Type} (c : GL A) (s : gl_state) : list gl_call :=
  gl_calls (snd (c {| shader_objects := shader_objects s;
                      program_objects := program_objects s;
                      pipeline_objects := pipeline_objects s;
                      next_name := next_name s; gl_errors := gl_errors s;
                      gl_calls := [] |})).

(** The window system sets the close flag when the user asks for it. *)
Definition request_close (close : bool) (st : state) : state :=
  if close
  then {| rotation := rotation st; zoom := zoom st;
          cursorX := cursorX st; cursorY := cursorY st;
          window := {| cursor_mode := cursor_mode (window st);
                       cursor_pos := cursor_pos (window st);
                       should_close := true |} |}
  else st.

(** Lines 218-253: [while (!glfwWindowShouldClose(window))].  The result is
    the state the loop leaves with, none when the passes run out first, and
    the calls made. *)
Fixpoint main_loop (m : libm) (r : resources) (g : model)
    (frames : list (double * list event * bool)) (s : state * timing)
  : option (state * timing) * list frame_call :=
  if should_close (window (fst s)) then (Some s, [])
  else
    match frames with
    | [] => (None, [])
    | (now, events, close) :: frames' =>
        let '(s', calls) := frame m r g now events s in
        let '(final, calls') :=
          main_loop m r g frames' (request_close close (fst s'), snd s') in
        (final, calls ++ calls')
    end.

(** Lines 152-157 and 159; lines 167-174. *)
Definition startup : list main_call :=
  [ Init; SetErrorCallback;
    WindowHint GLFW_CONTEXT_VERSION_MAJOR 4;
    WindowHint GLFW_CONTEXT_VERSION_MINOR 6;
    WindowHint GLFW_OPENGL_PROFILE GLFW_OPENGL_CORE_PROFILE;
    WindowHint GLFW_RESIZABLE GLFW_FALSE;
    CreateWindow WIDTH HEIGHT "Rabbit" ].

Definition install : list main_call :=
  [ MakeContextCurrent; SetKeyCallback; SetMouseButtonCallback;
    SetCursorPosCallback; SetScrollCallback; LoadGLLoader ].

Definition main (m : libm) (env : environment) : outcome * list main_call :=
  if negb (env_glfwInit env) then (Returns (-1), [Init])
  else
    match env_glfwCreateWindow env with
    | None => (Returns (-1), startup ++ [Terminate])
    | Some w =>
        if negb (env_gladLoadGLLoader env)
        then (Returns (-1), startup ++ install)
        else
          let '(width, height) := env_framebuffer env in
          let '((program, pipeline), s) :=
            createShaderProgram (env_NDEBUG env) (env_driver env) sources
                                gl_initial in
          let before_load :=
            startup ++ install
            ++ [ GetFramebufferSize; Viewport 0 0 width height ]
            ++ map Build (gl_calls s)
            ++ [ LoadObj "model/rabbit.obj" ] in
          match loadModel (env_attrib env) (env_shapes env) empty_model with
          | None => (Undefined, before_load)
          | Some g =>
              let blockSize :=
                Z.max sizeof_UniformBufferObject (env_alignment env) in
              let '(VERTEX, ELEMENT, TRANSFORM) := env_buffers env in
              let vao := env_vao env in
              let '(texture_calls, tex) :=
                loadTexture (env_tex env) "model/rabbit.jpg" STBI_rgb_alpha
                            (env_image env) in
              let r := {| pipeline := pipeline; vao := vao; tex := tex;
                          buffer_VERTEX := VERTEX; buffer_ELEMENT := ELEMENT;
                          buffer_TRANSFORM := TRANSFORM;
                          blockSize := blockSize |} in
              let setup :=
                before_load
                ++ [ GetIntegerv GL_UNIFORM_BUFFER_OFFSET_ALIGNMENT;
                     CreateBuffers [VERTEX; ELEMENT; TRANSFORM];
                     NamedBufferStorage VERTEX
                       (to_GLsizeiptr
                          (to_size_t (Z.of_nat (length (vertices g))
                                      * sizeof_Vertex))) 0;
                     NamedBufferStorage ELEMENT
                       (to_GLsizeiptr
                          (to_size_t (Z.of_nat (length (indices g))
                                      * sizeof_uint32_t))) 0;
                     NamedBufferStorage TRANSFORM blockSize
                       (Z.lor (Z.lor GL_MAP_WRITE_BIT GL_MAP_PERSISTENT_BIT)
                              GL_MAP_COHERENT_BIT);
                     CreateVertexArrays vao;
                     VertexArrayElementBuffer vao ELEMENT ]
                ++ map Texture texture_calls
                ++ [ Enable GL_DEPTH_TEST; DepthFunc GL_LEQUAL ] in
              let t0 := {| currentFrame := double_to_float (env_time env);
                           deltaTime := float_of_Z 0;
                           lastFrame := float_of_Z 0;
                           time := float_of_Z 0; fps := 0 |} in
              let '(final, calls) :=
                main_loop m r g (env_frames env) (initial_state w, t0) in
              match final with
              | None => (Running, setup ++ map Frame calls)
              | Some _ =>
                  (Returns 0,
                   setup ++ map Frame calls
                   ++ map Build (calls_of (shutdown (program, pipeline)) s)
                   ++ [ DeleteVertexArrays vao;
                        DeleteBuffers [VERTEX; ELEMENT; TRANSFORM];
                        DeleteTextures tex;
                        DestroyWindow; Terminate ])
              end
          end
    end.

(** ** Auxiliary notions for [main] *)

(** A pass of the loop whose events ask the window to close. *)
Definition closing (f : double * list event * bool) : bool :=
  existsb is_escape_press (snd (fst f)) || snd f.

(** The passes up to and including the first that closes, if one does. *)
Fixpoint passes_until_close (frames : list (double * list event * bool))
  : option nat :=
  match frames with
  | [] => None
  | f :: frames' =>
      if closing f then Some 1%nat else S <$> passes_until_close frames'
  end.

Definition is_StoreMVP (c : frame_call) : bool :=
  match c with StoreMVP _ => true | _ => false end.

(** The frame counts the window title has shown. *)
Definition is_title (c : frame_call) : bool :=
  match c with SetWindowTitle _ => true | _ => false end.

Definition title_of (n : Z) : frame_call := SetWindowTitle ("FPS: " +:+ pretty n).

Definition sum_Z (l : list Z) : Z := fold_right Z.add 0 l.

Definition is_Terminate (c : main_call) : bool :=
  match c with Terminate => true | _ => false end.

Definition is_DestroyWindow (c : main_call) : bool :=
  match c with DestroyWindow => true | _ => false end.

Definition is_Frame (c : main_call) : bool :=
  match c with Frame _ => true | _ => false end.

(** The names of the buffers, vertex arrays and textures a trace creates, and
    of those it deletes. *)
Definition created (c : main_call) : list (Z * Z) :=
  match c with
  | CreateBuffers names => map (pair 0) names
  | CreateVertexArrays name => [(1, name)]
  | Texture (CreateTextures _ name) => [(2, name)]
  | _ => []
  end.

Definition deleted (c : main_call) : list (Z * Z) :=
  match c with
  | DeleteBuffers names => map (pair 0) names
  | DeleteVertexArrays name => [(1, name)]
  | DeleteTextures name => [(2, name)]
  | _ => []
  end.

Definition sample_environment : environment :=
  {| env_NDEBUG := false; env_glfwInit := true;
     env_glfwCreateWindow := Some sample_window;
     env_gladLoadGLLoader := true;
     env_framebuffer := (WIDTH, HEIGHT);
     env_driver := warning_driver;
     env_attrib := fan_attrib; env_shapes := fan_shapes;
     env_alignment := 256;
     env_buffers := (1, 2, 3); env_vao := 1; env_tex := 1;
     env_image := sample_image 3 2 3 4;
     env_time := double_of_Z 0;
     env_frames :=
       [ (double_of_Z 1, [ScrollEvent (double_of_Z 0) (double_of_Z 4)], false);
         (double_of_Z 2, [KeyEvent GLFW_KEY_ESCAPE 9 GLFW_PRESS 0], false);
         (double_of_Z 3, [], false) ] |}.

Definition sample_libm : libm :=
  {| cosf := λ x, x; sinf := λ x, x; tanf := λ x, x |}.

(** The passes the loop makes for a window: none when the close flag is
    already set. *)
Definition passes_from (w : GLFWwindow)
    (frames : list (double * list event * bool)) : option nat :=
  if should_close w then Some 0%nat else passes_until_close frames.

Definition started (env : environment) : bool :=
  env_glfwInit env && bool_decide (is_Some (env_glfwCreateWindow env))
  && env_gladLoadGLLoader env.

(** * Part II: properties *)

(** ** Floating-point comparison *)

(** What [==] relates: two zeros of any sign, or two identical values that
    are not NaN. *)
Lemma feq_spec (a b : spec_float) :
  feq a b = true <->
  match a, b with
  | S754_zero _, S754_zero _ => True
  | S754_infinity s1, S754_infinity s2 => s1 = s2
  | S754_finite s1 m1 e1, S754_finite s2 m2 e2 => s1 = s2 /\ m1 = m2 /\ e1 = e2
  | _, _ => False
  end.
Proof.
  unfold feq, SFeqb.
  destruct a as [sa | sa | | sa ma ea], b as [sb | sb | | sb mb eb]; simpl;
    try (destruct sa; intuition congruence);
    try (destruct sb; intuition congruence);
    try (intuition congruence).
  - destruct sa, sb; intuition congruence.
  - destruct sa, sb; try (intuition congruence);
      destruct (Z.compare_spec ea eb) as [-> | Hlt | Hgt];
      try (split; [discriminate | intros (_ & _ & ->); lia]);
      fold (Pos.compare ma mb);
      destruct (Pos.compare_spec ma mb) as [-> | Hm | Hm]; simpl;
      try (split; [discriminate | intros (_ & -> & _); lia]);
      intuition congruence.
Qed.

Lemma feq_sym (a b : spec_float) : feq a b = feq b a.
Proof.
  apply eq_true_iff_eq. rewrite !feq_spec.
  destruct a, b; intuition congruence.
Qed.

Lemma feq_trans (a b c : spec_float) :
  feq a b = true -> feq b c = true -> feq a c = true.
Proof.
  rewrite !feq_spec.
  destruct a, b, c; intuition congruence.
Qed.

(** [x == x] fails exactly on NaN. *)
Lemma feq_refl_iff (a : spec_float) : feq a a = negb (is_nan a).
Proof.
  apply eq_true_iff_eq. rewrite feq_spec.
  destruct a; simpl; intuition congruence.
Qed.

Lemma feq_one : feq one one = true.
Proof. reflexivity. Qed.

(** ** [Vertex::operator==] is a partial equivalence *)

Ltac bool_split :=
  repeat match goal with
         | H : _ && _ = true |- _ => apply andb_prop in H; destruct H
         | |- _ && _ = true => apply andb_true_intro; split
         end.

Lemma vec2_eq_sym (a b : vec2 float) : vec2_eq a b = vec2_eq b a.
Proof. unfold vec2_eq. by rewrite (feq_sym (vec2_x a)), (feq_sym (vec2_y a)). Qed.

Lemma vec3_eq_sym (a b : vec3 float) : vec3_eq a b = vec3_eq b a.
Proof.
  unfold vec3_eq.
  by rewrite (feq_sym (vec3_x a)), (feq_sym (vec3_y a)), (feq_sym (vec3_z a)).
Qed.

Lemma vec4_eq_sym (a b : vec4 float) : vec4_eq a b = vec4_eq b a.
Proof.
  unfold vec4_eq.
  by rewrite (feq_sym (vec4_x a)), (feq_sym (vec4_y a)), (feq_sym (vec4_z a)),
    (feq_sym (vec4_w a)).
Qed.

Lemma vec2_eq_trans (a b c : vec2 float) :
  vec2_eq a b = true -> vec2_eq b c = true -> vec2_eq a c = true.
Proof. unfold vec2_eq. intros; bool_split; eauto using feq_trans. Qed.

Lemma vec3_eq_trans (a b c : vec3 float) :
  vec3_eq a b = true -> vec3_eq b c = true -> vec3_eq a c = true.
Proof. unfold vec3_eq. intros; bool_split; eauto using feq_trans. Qed.

Lemma vec4_eq_trans (a b c : vec4 float) :
  vec4_eq a b = true -> vec4_eq b c = true -> vec4_eq a c = true.
Proof. unfold vec4_eq. intros; bool_split; eauto using feq_trans. Qed.

Lemma Vertex_eq_sym (a b : Vertex) : Vertex_eq a b = Vertex_eq b a.
Proof.
  unfold Vertex_eq.
  by rewrite (vec4_eq_sym (position a)), (vec4_eq_sym (color a)),
    (vec2_eq_sym (texcoord a)).
Qed.

Lemma Vertex_eq_trans (a b c : Vertex) :
  Vertex_eq a b = true -> Vertex_eq b c = true -> Vertex_eq a c = true.
Proof.
  unfold Vertex_eq. intros; bool_split;
    eauto using vec4_eq_trans, vec2_eq_trans.
Qed.

(** A vertex equals itself exactly when none of its components is NaN. *)
Lemma Vertex_eq_refl_iff (v : Vertex) : Vertex_eq v v = negb (vertex_has_nan v).
Proof.
  unfold Vertex_eq, vec4_eq, vec2_eq, vertex_has_nan.
  rewrite !feq_refl_iff, !negb_orb, !andb_assoc. reflexivity.
Qed.

Lemma same_combination_sym (a b : combination) :
  same_combination a b = same_combination b a.
Proof.
  unfold same_combination.
  by rewrite (vec3_eq_sym (fst a)), (vec2_eq_sym (snd a)).
Qed.

Lemma same_combination_trans (a b c : combination) :
  same_combination a b = true -> same_combination b c = true ->
  same_combination a c = true.
Proof.
  unfold same_combination. intros; bool_split;
    eauto using vec3_eq_trans, vec2_eq_trans.
Qed.

(** ** Counting distinct elements under a partial equivalence *)

Section CountDistinct.

Context {A : Type} (same : A -> A -> bool).
Hypothesis same_sym : forall a b, same a b = same b a.
Hypothesis same_trans :
  forall a b c, same a b = true -> same b c = true -> same a c = true.

(** Related elements have the same relatives in any list. *)
Lemma existsb_same_congr (a b : A) (l : list A) :
  same a b = true -> existsb (same a) l = existsb (same b) l.
Proof using same_sym same_trans.
  intros Hab. induction l as [| x l IH]; simpl; [done |].
  rewrite IH. f_equal. apply eq_true_iff_eq. split; intros Hx.
  - apply same_trans with a; [by rewrite same_sym | done].
  - by apply same_trans with b.
Qed.

(** Dropping the relatives of [c] does not change who else has a relative. *)
Lemma existsb_filter_unrelated (c x : A) (l : list A) :
  same c x = false ->
  existsb (same x) (List.filter (λ y, negb (same c y)) l) = existsb (same x) l.
Proof using same_sym same_trans.
  intros Hcx. induction l as [| y l IH]; simpl; [done |].
  destruct (same c y) eqn:Hcy; simpl; rewrite IH; [| done].
  destruct (same x y) eqn:Hxy; [| done].
  exfalso. rewrite same_sym in Hxy.
  rewrite (same_trans c y x Hcy Hxy) in Hcx. discriminate.
Qed.

(** Dropping the class of [c] lowers the count by one when it occurs. *)
Lemma count_distinct_drop_class (c : A) (l : list A) :
  (count_distinct same (List.filter (λ y, negb (same c y)) l)
   + (if existsb (same c) l then 1 else 0))%nat
  = count_distinct same l.
Proof using same_sym same_trans.
  induction l as [| x l IH]; simpl; [done |].
  destruct (same c x) eqn:Hcx; simpl.
  - rewrite <- (existsb_same_congr c x l Hcx).
    destruct (existsb (same c) l); lia.
  - rewrite (existsb_filter_unrelated c x l Hcx).
    destruct (existsb (same x) l), (existsb (same c) l); lia.
Qed.

(** An element unrelated to itself is related to nothing. *)
Lemma same_irrefl_none (c x : A) : same c c = false -> same c x = false.
Proof using same_sym same_trans.
  intros Hc. destruct (same c x) eqn:Hcx; [| done].
  assert (same x c = true) as Hxc by (by rewrite same_sym).
  by rewrite (same_trans c x c Hcx Hxc) in Hc.
Qed.

End CountDistinct.

Lemma count_distinct_map {A B : Type} (f : A -> B)
    (sameA : A -> A -> bool) (sameB : B -> B -> bool) (l : list A) :
  (forall a b, sameB (f a) (f b) = sameA a b) ->
  count_distinct sameB (map f l) = count_distinct sameA l.
Proof.
  intros Hf. induction l as [| a l IH]; simpl; [done |].
  rewrite IH. replace (existsb (sameB (f a)) (map f l)) with (existsb (sameA a) l);
    [done |].
  clear IH. induction l as [| b l IH]; simpl; [done |]. by rewrite Hf, IH.
Qed.

(** ** The table operations *)

Lemma known_keys (m : unordered_map) (v : Vertex) :
  existsb (key_is v) m = known (map fst m) v.
Proof. unfold known. induction m as [| e m IH]; simpl; [done |]. by rewrite IH. Qed.

Lemma um_count_known (m : unordered_map) (v : Vertex) :
  (um_count m v =? 0) = negb (known (map fst m) v).
Proof. unfold um_count. rewrite known_keys. by destruct (known _ _). Qed.

Lemma um_assign_new (m : unordered_map) (v : Vertex) (n : Z) :
  known (map fst m) v = false -> um_assign m v n = m ++ [(v, n)].
Proof.
  rewrite <- known_keys. induction m as [| e m IH]; simpl; [done |].
  intros [He Hm]%orb_false_elim. rewrite He. by rewrite IH.
Qed.

Lemma find_none_known (m : unordered_map) (v : Vertex) :
  known (map fst m) v = false -> find (key_is v) m = None.
Proof.
  rewrite <- known_keys. induction m as [| e m IH]; simpl; [done |].
  intros [He Hm]%orb_false_elim. rewrite He. auto.
Qed.

Lemma find_some_known (m : unordered_map) (v : Vertex) :
  known (map fst m) v = true ->
  exists e, find (key_is v) m = Some e /\ In e m /\ Vertex_eq (fst e) v = true.
Proof.
  rewrite <- known_keys. induction m as [| e m IH]; simpl; [done |].
  destruct (key_is v e) eqn:He.
  - intros _. exists e. auto.
  - simpl. intros Hm. destruct (IH Hm) as (e' & ? & ? & ?). exists e'. auto.
Qed.

Lemma find_app_new (m : unordered_map) (v : Vertex) (e : Vertex * Z) :
  find (key_is v) m = None ->
  find (key_is v) (m ++ [e]) = if key_is v e then Some e else None.
Proof.
  induction m as [| e' m IH]; simpl; [done |].
  destruct (key_is v e'); [done | auto].
Qed.

(** The three ways through the loop body. *)
Lemma push_vertex_known (m : unordered_map) (g : model) (v : Vertex) :
  known (map fst m) v = true ->
  exists e, In e m /\ Vertex_eq (fst e) v = true /\
    push_vertex (m, g) v
    = (m, {| vertices := vertices g; indices := indices g ++ [snd e] |}).
Proof.
  intros Hk. destruct (find_some_known m v Hk) as (e & Hf & Hin & He).
  exists e. repeat split; [done .. |].
  unfold push_vertex. rewrite um_count_known, Hk. simpl.
  unfold um_index. by rewrite Hf.
Qed.

Lemma push_vertex_new (m : unordered_map) (g : model) (v : Vertex) :
  known (map fst m) v = false -> Vertex_eq v v = true ->
  push_vertex (m, g) v
  = (m ++ [(v, to_uint32 (Z.of_nat (length (vertices g))))],
     {| vertices := vertices g ++ [v];
        indices := indices g ++ [to_uint32 (Z.of_nat (length (vertices g)))] |}).
Proof.
  intros Hk Hv. unfold push_vertex. rewrite um_count_known, Hk. simpl.
  rewrite (um_assign_new _ _ _ Hk). unfold um_index.
  rewrite (find_app_new _ _ _ (find_none_known _ _ Hk)).
  unfold key_is at 1. simpl. by rewrite Hv.
Qed.

Lemma push_vertex_nan (m : unordered_map) (g : model) (v : Vertex) :
  known (map fst m) v = false -> Vertex_eq v v = false ->
  push_vertex (m, g) v
  = (m ++ [(v, to_uint32 (Z.of_nat (length (vertices g))))] ++ [(v, 0)],
     {| vertices := vertices g ++ [v]; indices := indices g ++ [0] |}).
Proof.
  intros Hk Hv. unfold push_vertex. rewrite um_count_known, Hk. simpl.
  rewrite (um_assign_new _ _ _ Hk). unfold um_index.
  rewrite (find_app_new _ _ _ (find_none_known _ _ Hk)).
  unfold key_is at 1. simpl. rewrite Hv. by rewrite <- app_assoc.
Qed.

Lemma push_all_cons (c : Vertex) (cs : list Vertex) (st : unordered_map * model) :
  push_all (c :: cs) st = push_all cs (push_vertex st c).
Proof. reflexivity. Qed.

(** ** The loops as a run over the candidates *)

Lemma for_indices_push_all (attrib : tinyobj.attrib_t) (l : list tinyobj.index_t)
    (st : unordered_map * model) :
  for_indices attrib l st
  = (λ cs, push_all cs st) <$> mapM (make_vertex attrib) l.
Proof.
  revert st. induction l as [| i l IH]; intros st; simpl; [done |].
  destruct (make_vertex attrib i) as [v |]; simpl; [| done].
  rewrite IH. by destruct (mapM (make_vertex attrib) l).
Qed.

Lemma mapM_app_option {A B : Type} (f : A -> option B) (l1 l2 : list A) :
  mapM f (l1 ++ l2)
  = (mapM f l1 ≫= λ a, mapM f l2 ≫= λ b, Some (a ++ b)).
Proof.
  induction l1 as [| x l1 IH]; simpl.
  - by destruct (mapM f l2).
  - destruct (f x); simpl; [| done]. rewrite IH.
    destruct (mapM f l1); simpl; [| done]. by destruct (mapM f l2).
Qed.

Lemma push_all_app (cs1 cs2 : list Vertex) (st : unordered_map * model) :
  push_all (cs1 ++ cs2) st = push_all cs2 (push_all cs1 st).
Proof. apply fold_left_app. Qed.

Lemma for_shapes_push_all (attrib : tinyobj.attrib_t)
    (shapes : list tinyobj.shape_t) (st : unordered_map * model) :
  for_shapes attrib shapes st
  = (λ cs, push_all cs st) <$> candidates attrib shapes.
Proof.
  unfold candidates, corners. revert st.
  induction shapes as [| s shapes IH]; intros st; simpl; [done |].
  rewrite for_indices_push_all, mapM_app_option.
  destruct (mapM (make_vertex attrib) (tinyobj.indices (tinyobj.mesh s)))
    as [cs1 |]; simpl; [| done].
  rewrite IH.
  destruct (mapM (make_vertex attrib) _) as [cs2 |]; simpl; [| done].
  by rewrite push_all_app.
Qed.

Lemma loadModel_push_all (attrib : tinyobj.attrib_t)
    (shapes : list tinyobj.shape_t) (g : model) :
  loadModel attrib shapes g
  = (λ cs, snd (push_all cs ([], g))) <$> candidates attrib shapes.
Proof.
  unfold loadModel. rewrite for_shapes_push_all.
  by destruct (candidates attrib shapes).
Qed.

(** ** Which candidates become vertices *)

Lemma known_app (keys : list Vertex) (c x : Vertex) :
  known (keys ++ [c]) x = known keys x || Vertex_eq c x.
Proof. unfold known. rewrite existsb_app. simpl. by rewrite orb_false_r. Qed.

Lemma firsts_ext (keys1 keys2 cs : list Vertex) :
  (forall x, known keys1 x = known keys2 x) -> firsts keys1 cs = firsts keys2 cs.
Proof.
  revert keys1 keys2. induction cs as [| c cs IH]; intros keys1 keys2 Hk; simpl;
    [done |].
  rewrite (Hk c). destruct (known keys2 c); [by apply IH |].
  f_equal. apply IH. intros x. by rewrite !known_app, Hk.
Qed.

Lemma push_all_vertices (cs : list Vertex) (m : unordered_map) (g : model) :
  vertices (snd (push_all cs (m, g))) = vertices g ++ firsts (map fst m) cs.
Proof.
  revert m g. induction cs as [| c cs IH]; intros m g.
  - simpl. by rewrite app_nil_r.
  - rewrite push_all_cons. cbn [firsts].
    destruct (known (map fst m) c) eqn:Hk.
    + destruct (push_vertex_known m g c Hk) as (e & _ & _ & ->). by rewrite IH.
    + destruct (Vertex_eq c c) eqn:Hc.
      * rewrite (push_vertex_new m g c Hk Hc), IH. cbn [vertices].
        rewrite map_app, <- app_assoc. reflexivity.
      * rewrite (push_vertex_nan m g c Hk Hc), IH. cbn [vertices].
        rewrite <- app_assoc. cbn [app]. do 2 f_equal. apply firsts_ext.
        intros x. rewrite map_app. cbn [map fst].
        change [c; c] with ([c] ++ [c]). rewrite app_assoc, !known_app.
        by destruct (known (map fst m) x), (Vertex_eq c x).
Qed.

Lemma push_all_indices_length (cs : list Vertex) (m : unordered_map) (g : model) :
  length (indices (snd (push_all cs (m, g))))
  = (length (indices g) + length cs)%nat.
Proof.
  revert m g. induction cs as [| c cs IH]; intros m g; [simpl; lia |].
  rewrite push_all_cons. cbn [length].
  destruct (known (map fst m) c) eqn:Hk.
  - destruct (push_vertex_known m g c Hk) as (e & _ & _ & ->).
    rewrite IH. simpl. rewrite length_app. simpl. lia.
  - destruct (Vertex_eq c c) eqn:Hc.
    + rewrite (push_vertex_new m g c Hk Hc), IH. simpl.
      rewrite length_app. simpl. lia.
    + rewrite (push_vertex_nan m g c Hk Hc), IH. simpl.
      rewrite length_app. simpl. lia.
Qed.

Lemma filter_unknown_app (keys : list Vertex) (c : Vertex) (cs : list Vertex) :
  List.filter (λ x, negb (known (keys ++ [c]) x)) cs
  = List.filter (λ x, negb (Vertex_eq c x))
      (List.filter (λ x, negb (known keys x)) cs).
Proof.
  induction cs as [| x cs IH]; simpl; [done |].
  rewrite known_app. destruct (known keys x); simpl; [done |].
  destruct (Vertex_eq c x); simpl; by rewrite IH.
Qed.

(** The vertices appended are as many as the distinct candidates that no key
    of the table equals. *)
Lemma firsts_length (keys cs : list Vertex) :
  length (firsts keys cs)
  = count_distinct Vertex_eq (List.filter (λ x, negb (known keys x)) cs).
Proof.
  revert keys. induction cs as [| c cs IH]; intros keys; simpl; [done |].
  destruct (known keys c) eqn:Hk; simpl; [by apply IH |].
  rewrite IH, filter_unknown_app.
  pose proof (count_distinct_drop_class Vertex_eq Vertex_eq_sym Vertex_eq_trans c
                (List.filter (λ x, negb (known keys x)) cs)) as Hd.
  destruct (existsb (Vertex_eq c) _); lia.
Qed.

Lemma firsts_length_le (keys cs : list Vertex) :
  (length (firsts keys cs) <= length cs)%nat.
Proof.
  revert keys. induction cs as [| c cs IH]; intros keys; simpl; [done |].
  destruct (known keys c); simpl.
  - specialize (IH keys). lia.
  - specialize (IH (keys ++ [c])). lia.
Qed.

(** ** Every index points into the vertex list *)

Lemma to_uint32_bounds (n : nat) : 0 <= to_uint32 (Z.of_nat n) <= Z.of_nat n.
Proof.
  unfold to_uint32. split.
  - apply Z.mod_pos_bound. lia.
  - apply Z.mod_le; lia.
Qed.

Lemma in_bounds_grow (g g' : model) (i : Z) :
  (length (vertices g) <= length (vertices g'))%nat ->
  in_bounds g i -> in_bounds g' i.
Proof. unfold in_bounds. lia. Qed.

Lemma push_vertex_bounded (st : unordered_map * model) (c : Vertex) :
  bounded_state st -> bounded_state (push_vertex st c).
Proof.
  destruct st as [m g]. intros [Hm Hi]. simpl in Hm, Hi.
  pose proof (to_uint32_bounds (length (vertices g))) as Hu.
  assert (forall is', (length (vertices g ++ [c]) <= length (vertices
            {| vertices := vertices g ++ [c]; indices := is' |}))%nat) as Hle
    by (intros; simpl; lia).
  assert (forall is', (length (vertices g) <= length (vertices
            {| vertices := vertices g ++ [c]; indices := is' |}))%nat) as Hlt
    by (intros; simpl; rewrite length_app; lia).
  assert (forall is' i, 0 <= i <= Z.of_nat (length (vertices g)) ->
            in_bounds {| vertices := vertices g ++ [c]; indices := is' |} i)
    as Hnew.
  { intros is' i Hi'. unfold in_bounds. simpl. rewrite length_app. simpl. lia. }
  destruct (known (map fst m) c) eqn:Hk.
  - destruct (push_vertex_known m g c Hk) as (e & Hin & _ & ->).
    split; simpl; [done |]. apply Forall_app. split; [done |].
    apply Forall_cons. split; [| done].
    rewrite List.Forall_forall in Hm. by apply Hm.
  - destruct (Vertex_eq c c) eqn:Hc.
    + rewrite (push_vertex_new m g c Hk Hc). split; cbn [fst snd indices].
      * apply Forall_app. split.
        -- eapply Forall_impl; [exact Hm |]. intros e.
           apply in_bounds_grow, Hlt.
        -- apply Forall_cons. split; [| done]. apply Hnew. simpl. lia.
      * apply Forall_app. split.
        -- eapply Forall_impl; [exact Hi |]. intros e.
           apply in_bounds_grow, Hlt.
        -- apply Forall_cons. split; [| done]. apply Hnew. lia.
    + rewrite (push_vertex_nan m g c Hk Hc). split; cbn [fst snd indices].
      * apply Forall_app. split.
        -- eapply Forall_impl; [exact Hm |]. intros e.
           apply in_bounds_grow, Hlt.
        -- apply Forall_cons. split; [apply Hnew; simpl; lia |].
           apply Forall_cons. split; [apply Hnew; simpl; lia | done].
      * apply Forall_app. split.
        -- eapply Forall_impl; [exact Hi |]. intros e.
           apply in_bounds_grow, Hlt.
        -- apply Forall_cons. split; [| done]. apply Hnew. lia.
Qed.

Lemma push_all_bounded (cs : list Vertex) (st : unordered_map * model) :
  bounded_state st -> bounded_state (push_all cs st).
Proof.
  revert st. induction cs as [| c cs IH]; intros st Hst; [done |].
  rewrite push_all_cons. apply IH. by apply push_vertex_bounded.
Qed.

(** ** The index list reproduces the candidates *)

Lemma resolves_grow (g g' : model) (ext : list Vertex) (i : Z) (c : Vertex) :
  vertices g' = vertices g ++ ext -> resolves g i c -> resolves g' i c.
Proof.
  intros Hv Hr Hc. destruct (Hr Hc) as (v & Hl & He). exists v. split; [| done].
  rewrite Hv. by apply lookup_app_l_Some.
Qed.

Lemma faithful_grow (m : unordered_map) (g g' : model) (ext : list Vertex) :
  vertices g' = vertices g ++ ext ->
  faithful_table (m, g) -> faithful_table (m, g').
Proof.
  unfold faithful_table. simpl. intros Hv Hf.
  eapply Forall_impl; [exact Hf |]. simpl. intros e He Hk.
  rewrite Hv. apply lookup_app_l_Some. auto.
Qed.

Lemma to_uint32_small (n : nat) :
  Z.of_nat n < 2 ^ 32 -> to_uint32 (Z.of_nat n) = Z.of_nat n.
Proof. intros Hn. unfold to_uint32. apply Z.mod_small. lia. Qed.

Lemma push_vertex_faithful (m : unordered_map) (g : model) (c : Vertex) :
  faithful_table (m, g) ->
  Z.of_nat (length (vertices g)) < 2 ^ 32 ->
  exists m' ext i,
    push_vertex (m, g) c
    = (m', {| vertices := vertices g ++ ext; indices := indices g ++ [i] |})
    /\ faithful_table (m', {| vertices := vertices g ++ ext;
                              indices := indices g ++ [i] |})
    /\ resolves {| vertices := vertices g ++ ext; indices := indices g ++ [i] |} i c
    /\ (length ext <= 1)%nat.
Proof.
  intros Hf Hlen.
  destruct (known (map fst m) c) eqn:Hk.
  - destruct (push_vertex_known m g c Hk) as (e & Hin & He & ->).
    exists m, [], (snd e). rewrite app_nil_r. repeat split; [| | simpl; lia].
    + eapply faithful_grow; [| exact Hf]. simpl. by rewrite app_nil_r.
    + intros _. exists (fst e). split; [| done]. simpl.
      unfold faithful_table in Hf. rewrite List.Forall_forall in Hf.
      apply (Hf e Hin).
      apply Vertex_eq_trans with c; [done |]. by rewrite Vertex_eq_sym.
  - destruct (Vertex_eq c c) eqn:Hc.
    + rewrite (push_vertex_new m g c Hk Hc).
      rewrite (to_uint32_small _ Hlen).
      eexists _, [c], _. repeat split; [| | simpl; lia].
      * unfold faithful_table. cbn [fst snd vertices]. apply Forall_app. split.
        -- eapply Forall_impl; [exact Hf |]. simpl. intros e He Hk'.
           apply lookup_app_l_Some. auto.
        -- apply Forall_cons. split; [| done]. simpl. intros _.
           rewrite Nat2Z.id. by apply list_lookup_middle.
      * intros _. exists c. split; [| done]. simpl.
        rewrite Nat2Z.id. by apply list_lookup_middle.
    + rewrite (push_vertex_nan m g c Hk Hc).
      eexists _, [c], _. repeat split; [| | simpl; lia].
      * unfold faithful_table. cbn [fst snd vertices]. apply Forall_app. split.
        -- eapply Forall_impl; [exact Hf |]. simpl. intros e He Hk'.
           apply lookup_app_l_Some. auto.
        -- apply Forall_cons. split; [simpl; congruence |].
           apply Forall_cons. split; [simpl; congruence | done].
      * intros Hn. rewrite Vertex_eq_refl_iff, Hn in Hc. discriminate.
Qed.

Lemma push_all_faithful (cs : list Vertex) (m : unordered_map) (g : model) :
  faithful_table (m, g) ->
  Z.of_nat (length (vertices g)) + Z.of_nat (length cs) <= 2 ^ 32 ->
  exists is',
    indices (snd (push_all cs (m, g))) = indices g ++ is'
    /\ Forall2 (resolves (snd (push_all cs (m, g)))) is' cs.
Proof.
  revert m g. induction cs as [| c cs IH]; intros m g Hf Hlen.
  - exists []. simpl. by rewrite app_nil_r.
  - rewrite push_all_cons. cbn [length] in Hlen.
    destruct (push_vertex_faithful m g c Hf) as (m' & ext & i & -> & Hf' & Hr & He);
      [lia |].
    destruct (IH m' _ Hf') as (is' & Hi & Hall).
    { cbn [vertices]. rewrite length_app. lia. }
    exists (i :: is'). split.
    + rewrite Hi. simpl. by rewrite <- app_assoc.
    + apply Forall2_cons. split; [| done].
      eapply resolves_grow; [| exact Hr]. apply push_all_vertices.
Qed.

(** ** Meshes in range *)

Lemma int_offset (a b c : Z) :
  0 <= a * b -> 0 <= c -> a * b + c <= INT_MAX ->
  int_mul a b ≫= (λ k, int_add k c) = Some (a * b + c).
Proof.
  intros Hab Hc Hmax. unfold int_mul, int_add, int_checked, INT_MIN, INT_MAX in *.
  destruct (Z.leb_spec (- 2 ^ 31) (a * b)); [| lia].
  destruct (Z.leb_spec (a * b) (2 ^ 31 - 1)); [| lia]. simpl.
  destruct (Z.leb_spec (- 2 ^ 31) (a * b + c)); [| lia].
  destruct (Z.leb_spec (a * b + c) (2 ^ 31 - 1)); [| lia]. done.
Qed.

Lemma vector_at_in_range {A : Type} (v : list A) (i : Z) :
  0 <= i < Z.of_nat (length v) -> exists x, vector_at v i = Some x.
Proof.
  intros Hi. unfold vector_at.
  destruct (Z.leb_spec 0 i); [| lia]. destruct (Z.ltb_spec i (Z.of_nat (length v))); [| lia].
  simpl. apply lookup_lt_is_Some_2. lia.
Qed.

Lemma make_vertex_in_range (attrib : tinyobj.attrib_t) (index : tinyobj.index_t) :
  corner_in_range attrib index = true ->
  exists c, corner_combination attrib index = Some c
            /\ make_vertex attrib index = Some (vertex_of c).
Proof.
  unfold corner_in_range. intros H. bool_split.
  repeat match goal with
         | H : (_ <=? _) = true |- _ => apply Z.leb_le in H
         | H : (_ <? _) = true |- _ => apply Z.ltb_lt in H
         end.
  unfold make_vertex, corner_combination.
  set (vi := tinyobj.vertex_index index) in *.
  set (ti := tinyobj.texcoord_index index) in *.
  rewrite !int_offset by lia. cbn [mbind option_bind].
  rewrite !Z.add_0_r.
  destruct (vector_at_in_range (tinyobj.vertices attrib) (3 * vi)) as [px ->]; [lia |].
  destruct (vector_at_in_range (tinyobj.vertices attrib) (3 * vi + 1)) as [py ->]; [lia |].
  destruct (vector_at_in_range (tinyobj.vertices attrib) (3 * vi + 2)) as [pz ->]; [lia |].
  destruct (vector_at_in_range (tinyobj.texcoords attrib) (2 * ti)) as [tu ->]; [lia |].
  destruct (vector_at_in_range (tinyobj.texcoords attrib) (2 * ti + 1)) as [tv ->]; [lia |].
  simpl. eexists. split; reflexivity.
Qed.

Lemma mapM_in_range (attrib : tinyobj.attrib_t) (l : list tinyobj.index_t) :
  forallb (corner_in_range attrib) l = true ->
  exists combos, mapM (corner_combination attrib) l = Some combos
                 /\ mapM (make_vertex attrib) l = Some (map vertex_of combos).
Proof.
  induction l as [| i l IH]; simpl.
  - intros _. by exists [].
  - intros [Hi Hl]%andb_prop.
    destruct (make_vertex_in_range attrib i Hi) as (c & -> & ->).
    destruct (IH Hl) as (combos & -> & ->). by exists (c :: combos).
Qed.

Lemma candidates_in_range (attrib : tinyobj.attrib_t)
    (shapes : list tinyobj.shape_t) :
  mesh_in_range attrib shapes = true ->
  exists combos, referenced_combinations attrib shapes = Some combos
                 /\ candidates attrib shapes = Some (map vertex_of combos).
Proof. apply mapM_in_range. Qed.

Lemma Vertex_eq_vertex_of (a b : combination) :
  Vertex_eq (vertex_of a) (vertex_of b) = same_combination a b.
Proof.
  unfold Vertex_eq, vertex_of, same_combination, vec4_eq, vec3_eq. simpl.
  rewrite feq_one. by rewrite !andb_true_r.
Qed.

Lemma mapM_length {A B : Type} (f : A -> option B) (l : list A) (k : list B) :
  mapM f l = Some k -> length k = length l.
Proof.
  revert k. induction l as [| a l IH]; simpl; intros k.
  - by intros [= <-].
  - destruct (f a); simpl; [| done]. destruct (mapM f l); simpl; [| done].
    intros [= <-]. simpl. f_equal. by apply IH.
Qed.

(** ** The loader: results *)

Lemma push_vertex_shape (m : unordered_map) (g : model) (c : Vertex) :
  exists m' ext i,
    push_vertex (m, g) c
    = (m', {| vertices := vertices g ++ ext; indices := indices g ++ [i] |}).
Proof.
  destruct (known (map fst m) c) eqn:Hk.
  - destruct (push_vertex_known m g c Hk) as (e & _ & _ & ->).
    exists m, [], (snd e). by rewrite app_nil_r.
  - destruct (Vertex_eq c c) eqn:Hc.
    + rewrite (push_vertex_new m g c Hk Hc). by eexists _, [c], _.
    + rewrite (push_vertex_nan m g c Hk Hc). by eexists _, [c], _.
Qed.

Lemma push_all_indices_prefix (cs : list Vertex) (m : unordered_map) (g : model) :
  exists is', indices (snd (push_all cs (m, g))) = indices g ++ is'
              /\ length is' = length cs.
Proof.
  revert m g. induction cs as [| c cs IH]; intros m g.
  - exists []. simpl. by rewrite app_nil_r.
  - rewrite push_all_cons.
    destruct (push_vertex_shape m g c) as (m' & ext & i & ->).
    destruct (IH m' {| vertices := vertices g ++ ext; indices := indices g ++ [i] |})
      as (is' & -> & Hl).
    exists (i :: is'). simpl. rewrite <- app_assoc. split; [done | lia].
Qed.

Lemma filter_unknown_nil (cs : list Vertex) :
  List.filter (λ x, negb (known [] x)) cs = cs.
Proof. induction cs as [| c cs IH]; simpl; [done |]. f_equal. exact IH. Qed.

Lemma bounded_initial : bounded_state ([], empty_model).
Proof. split; simpl; constructor. Qed.

Lemma faithful_initial : faithful_table ([], empty_model).
Proof. constructor. Qed.

(** C1 as stated fails.  It speaks of every mesh, but a mesh without texture
    coordinates makes [loadModel] read [texcoords[-2]], outside the vector
    (lines 354-357): there is no vertex list at all.  And a combination with
    a NaN component is stored once for each face corner that refers to it:
    one combination referred to twice gives two vertices. *)
Lemma loadModel_dedup_fails :
  loadModel bare_attrib bare_shapes empty_model = None
  /\ (exists c g,
        referenced_combinations nan_attrib nan_twice_shapes = Some [c; c]
        /\ loadModel nan_attrib nan_twice_shapes empty_model = Some g
        /\ length (vertices g) = 2%nat)
  /\ ~ (forall attrib shapes,
           exists g, loadModel attrib shapes empty_model = Some g
                     /\ length (indices g) = length (corners shapes)).
Proof.
  split; [vm_compute; reflexivity |]. split.
  - eexists _, _. split; [vm_compute; reflexivity |].
    split; [vm_compute; reflexivity |]. vm_compute. reflexivity.
  - intros H. destruct (H bare_attrib bare_shapes) as (g & Hg & _).
    vm_compute in Hg. discriminate Hg.
Qed.

(** C1, as the code has it.  For every mesh whose face corners are in range
    (each names a position and a texture coordinate that the arrays hold)
    and whose attributes hold no NaN, [loadModel] returns a vertex list as
    long as the number of distinct (position, texcoord) combinations the
    face corners refer to, distinct under [==] (an equivalence where there
    is no NaN), and an index list with one entry per face corner, every
    entry below the length of the vertex list; so a mesh of nine face
    corners on six combinations gives six vertices and nine indices. *)
Theorem loadModel_dedup_invariant (attrib : tinyobj.attrib_t)
    (shapes : list tinyobj.shape_t) :
  mesh_in_range attrib shapes = true ->
  mesh_nan_free attrib = true ->
  exists combos g,
    referenced_combinations attrib shapes = Some combos
    /\ loadModel attrib shapes empty_model = Some g
    /\ length (vertices g) = count_distinct same_combination combos
    /\ length (indices g) = length (corners shapes)
    /\ Forall (λ i, 0 <= i < Z.of_nat (length (vertices g))) (indices g)
    /\ (length (corners shapes) = 9%nat ->
        count_distinct same_combination combos = 6%nat ->
        length (vertices g) = 6%nat /\ length (indices g) = 9%nat).
Proof.
  intros Hr _.
  destruct (candidates_in_range attrib shapes Hr) as (combos & Hc & Hv).
  exists combos, (snd (push_all (map vertex_of combos) ([], empty_model))).
  assert (length (vertices (snd (push_all (map vertex_of combos) ([], empty_model))))
          = count_distinct same_combination combos) as Hlen.
  { rewrite push_all_vertices. simpl.
    rewrite firsts_length, filter_unknown_nil.
    apply count_distinct_map, Vertex_eq_vertex_of. }
  assert (length (indices (snd (push_all (map vertex_of combos) ([], empty_model))))
          = length (corners shapes)) as Hidx.
  { rewrite push_all_indices_length. simpl. rewrite length_map.
    apply (mapM_length _ _ _ Hc). }
  repeat split.
  - done.
  - rewrite loadModel_push_all, Hv. reflexivity.
  - done.
  - done.
  - apply (push_all_bounded _ _ bounded_initial).
  - congruence.
  - congruence.
Qed.

Lemma loadModel_dedup_invariant_fan :
  exists combos g,
    referenced_combinations fan_attrib fan_shapes = Some combos
    /\ loadModel fan_attrib fan_shapes empty_model = Some g
    /\ length (vertices g) = count_distinct same_combination combos
    /\ length (indices g) = length (corners fan_shapes)
    /\ Forall (λ i, 0 <= i < Z.of_nat (length (vertices g))) (indices g)
    /\ (length (corners fan_shapes) = 9%nat ->
        count_distinct same_combination combos = 6%nat ->
        length (vertices g) = 6%nat /\ length (indices g) = 9%nat).
Proof.
  apply (loadModel_dedup_invariant fan_attrib fan_shapes);
    vm_compute; reflexivity.
Defined.

(** The fan: nine face corners, six combinations, six vertices, nine indices. *)
Example loadModel_fan :
  (length (corners fan_shapes),
   count_distinct same_combination <$> referenced_combinations fan_attrib fan_shapes,
   (λ g, (length (vertices g), indices g))
     <$> loadModel fan_attrib fan_shapes empty_model)
  = (9%nat, Some 6%nat, Some (6%nat, [0; 1; 2; 0; 2; 3; 0; 4; 5])).
Proof. vm_compute. reflexivity. Qed.

(** A combination with a NaN component equals nothing under [==], itself
    included: referred to twice it counts as two combinations, and the loader
    stores two vertices for it. *)
Example loadModel_nan_twice :
  (count_distinct same_combination
     <$> referenced_combinations nan_attrib nan_twice_shapes,
   (λ g, (length (vertices g), indices g))
     <$> loadModel nan_attrib nan_twice_shapes empty_model)
  = (Some 2%nat, Some (2%nat, [0; 0])).
Proof. vm_compute. reflexivity. Qed.

(** C4 as stated fails: on the one-triangle mesh the lists after a second run
    are not those after the first. *)
Lemma loadModel_twice_differs :
  ~ (forall g1 g2,
        loadModel triangle_attrib triangle_shapes empty_model = Some g1 ->
        loadModel triangle_attrib triangle_shapes g1 = Some g2 ->
        g2 = g1).
Proof.
  intros H.
  destruct (loadModel triangle_attrib triangle_shapes empty_model) as [g1 |] eqn:E1;
    [| vm_compute in E1; discriminate].
  destruct (loadModel triangle_attrib triangle_shapes g1) as [g2 |] eqn:E2.
  - specialize (H g1 g2 eq_refl E2). subst g2.
    vm_compute in E1. injection E1 as <-. vm_compute in E2. discriminate.
  - vm_compute in E1. injection E1 as <-. vm_compute in E2. discriminate.
Qed.

(** C4, as the code has it.  [loadModel] appends to the two global vectors
    and never clears them: a second run on the same mesh puts the same
    vertices behind those of the first run and adds one index per face corner
    once more.  The lists after the second run are those after the first only
    for a mesh without face corners. *)
Theorem loadModel_twice_appends (attrib : tinyobj.attrib_t)
    (shapes : list tinyobj.shape_t) :
  mesh_in_range attrib shapes = true ->
  exists g1 g2 is',
    loadModel attrib shapes empty_model = Some g1
    /\ loadModel attrib shapes g1 = Some g2
    /\ vertices g2 = vertices g1 ++ vertices g1
    /\ indices g2 = indices g1 ++ is'
    /\ length is' = length (indices g1)
    /\ (g2 = g1 <-> corners shapes = []).
Proof.
  intros Hr. destruct (candidates_in_range attrib shapes Hr) as (combos & Hc & Hv).
  set (cs := map vertex_of combos) in *.
  set (g1 := snd (push_all cs ([], empty_model))).
  set (g2 := snd (push_all cs ([], g1))).
  destruct (push_all_indices_prefix cs [] g1) as (is' & Hi & Hl).
  change (indices g2 = indices g1 ++ is') in Hi.
  assert (length (indices g1) = length cs) as Hl1.
  { unfold g1. by rewrite push_all_indices_length. }
  assert (length cs = length (corners shapes)) as Hcs.
  { unfold cs. rewrite length_map. apply (mapM_length _ _ _ Hc). }
  exists g1, g2, is'. repeat split.
  - rewrite loadModel_push_all, Hv. reflexivity.
  - rewrite loadModel_push_all, Hv. reflexivity.
  - unfold g2. rewrite push_all_vertices. f_equal. unfold g1.
    rewrite push_all_vertices. reflexivity.
  - done.
  - lia.
  - intros Heq. rewrite Heq in Hi. apply (f_equal length) in Hi.
    rewrite length_app in Hi. apply length_zero_iff_nil. lia.
  - intros Hnil. rewrite Hnil in Hcs. destruct cs; [| simpl in Hcs; lia].
    reflexivity.
Qed.

Lemma loadModel_twice_appends_triangle :
  exists g1 g2 is',
    loadModel triangle_attrib triangle_shapes empty_model = Some g1
    /\ loadModel triangle_attrib triangle_shapes g1 = Some g2
    /\ vertices g2 = vertices g1 ++ vertices g1
    /\ indices g2 = indices g1 ++ is'
    /\ length is' = length (indices g1)
    /\ (g2 = g1 <-> corners triangle_shapes = []).
Proof.
  apply (loadModel_twice_appends triangle_attrib triangle_shapes).
  vm_compute. reflexivity.
Defined.

(** The index lists of two runs on the triangle. *)
Example loadModel_triangle_twice :
  indices <$> (loadModel triangle_attrib triangle_shapes empty_model
               ≫= loadModel triangle_attrib triangle_shapes)
  = Some [0; 1; 2; 3; 4; 5].
Proof. vm_compute. reflexivity. Qed.

(** C9 as stated fails: with a NaN coordinate in the second of two face
    corners, the index of that corner is 0 and names the vertex of the first
    corner, whose ordinate differs. *)
Lemma loadModel_lossless_fails_on_nan :
  exists cs g,
    candidates nan_attrib nan_shapes = Some cs
    /\ loadModel nan_attrib nan_shapes empty_model = Some g
    /\ indices g = [0; 0]
    /\ ~ Forall2 (λ o c, exists v, o = Some v /\ Vertex_eq v c = true) (expand g) cs
    /\ (exists v c, expand g !! 1%nat = Some (Some v) /\ cs !! 1%nat = Some c
                    /\ feq (vec4_y (position v)) (vec4_y (position c)) = false).
Proof.
  eexists _, _. split; [vm_compute; reflexivity |].
  split; [vm_compute; reflexivity |].
  split; [reflexivity |]. split.
  - intros H. apply Forall2_cons_1 in H as [_ H].
    apply Forall2_cons_1 in H as [(v & Hv & He) _].
    vm_compute in Hv. injection Hv as <-. vm_compute in He. discriminate.
  - eexists _, _. split; [vm_compute; reflexivity |].
    split; [reflexivity |]. vm_compute. reflexivity.
Qed.

(** C9, as the code has it.  For a mesh in range with at most 2^32 face
    corners, the index stored for a face corner whose candidate vertex has no
    NaN component names a vertex that compares equal, field by field, to
    that candidate. *)
Theorem loadModel_lossless_without_nan (attrib : tinyobj.attrib_t)
    (shapes : list tinyobj.shape_t) :
  mesh_in_range attrib shapes = true ->
  Z.of_nat (length (corners shapes)) <= 2 ^ 32 ->
  exists cs g,
    candidates attrib shapes = Some cs
    /\ loadModel attrib shapes empty_model = Some g
    /\ Forall2 (λ o c, vertex_has_nan c = false ->
                       exists v, o = Some v /\ Vertex_eq v c = true)
         (expand g) cs.
Proof.
  intros Hr Hn. destruct (candidates_in_range attrib shapes Hr) as (combos & Hc & Hv).
  set (cs := map vertex_of combos) in *.
  assert (length cs = length (corners shapes)) as Hcs.
  { unfold cs. rewrite length_map. apply (mapM_length _ _ _ Hc). }
  set (g := snd (push_all cs ([], empty_model))).
  exists cs, g. split; [done |].
  split; [rewrite loadModel_push_all, Hv; reflexivity |].
  destruct (push_all_faithful cs [] empty_model faithful_initial)
    as (is' & Hi & Hall); [simpl; lia |].
  change (indices g = [] ++ is') in Hi.
  change (Forall2 (resolves g) is' cs) in Hall.
  unfold expand. rewrite Hi. simpl. apply Forall2_fmap_l.
  eapply Forall2_impl; [exact Hall |]. intros i c Hres Hnan.
  destruct (Hres Hnan) as (v & Hl & He). eauto.
Qed.

Lemma loadModel_lossless_without_nan_fan :
  exists cs g,
    candidates fan_attrib fan_shapes = Some cs
    /\ loadModel fan_attrib fan_shapes empty_model = Some g
    /\ Forall2 (λ o c, vertex_has_nan c = false ->
                       exists v, o = Some v /\ Vertex_eq v c = true)
         (expand g) cs.
Proof.
  apply (loadModel_lossless_without_nan fan_attrib fan_shapes).
  - vm_compute. reflexivity.
  - vm_compute. discriminate.
Defined.

(** ** The texture format table *)

(** C5.  The mapping from the requested channel count to the pair (internal
    format, transfer format) is a total function: 1 gives (R8, RED), 2 gives
    (RG8, RG), 3 gives (RGB8, RGB), and 4 and every other value give
    (RGBA8, RGBA). *)
Theorem loadTexture_format_table (comp : Z) :
  loadTexture_format comp
  = match comp with
    | 1 => (GL_R8, GL_RED)
    | 2 => (GL_RG8, GL_RG)
    | 3 => (GL_RGB8, GL_RGB)
    | _ => (GL_RGBA8, GL_RGBA)
    end
  /\ loadTexture_format 4 = (GL_RGBA8, GL_RGBA).
Proof.
  split; [| reflexivity].
  destruct comp as [| p | p]; try reflexivity.
  destruct p as [p | p |]; try reflexivity;
    destruct p as [p | p |]; try reflexivity;
    destruct p as [p | p |]; reflexivity.
Qed.

(** ** The zoom *)

Lemma same_number_refl (a : spec_float) : same_number a a = true.
Proof. unfold same_number. rewrite feq_refl_iff. by destruct (is_nan a). Qed.

Lemma clamp_is_maximum (s : float) :
  same_number (if flt s (float_of_Z 0) then float_of_Z 0 else s)
              (fmaximum (float_of_Z 0) s) = true.
Proof.
  destruct s as [[] | [] | | [] m e]; try reflexivity;
    apply same_number_refl.
Qed.

Lemma clamp_not_negative (s : float) :
  flt (if flt s (float_of_Z 0) then float_of_Z 0 else s) (float_of_Z 0) = false.
Proof. destruct (flt s (float_of_Z 0)) eqn:E; [reflexivity | exact E]. Qed.

Lemma dispatch_not_negative (st : state) (e : event) :
  flt (zoom st) (float_of_Z 0) = false ->
  flt (zoom (dispatch st e)) (float_of_Z 0) = false.
Proof.
  intros Hz. destruct e as [k sc a mo | b a mo | x y | x y]; simpl.
  - unfold key_callback. by destruct (_ && _).
  - unfold mouse_button_callback.
    destruct (negb _); [done |]. destruct (_ =? _); [| done].
    by destruct (glfwGetCursorPos _).
  - unfold cursor_position_callback. simpl. by destruct (_ =? _).
  - apply clamp_not_negative.
Qed.

Lemma glfwPollEvents_not_negative (events : list event) (st : state) :
  flt (zoom st) (float_of_Z 0) = false ->
  flt (zoom (glfwPollEvents st events)) (float_of_Z 0) = false.
Proof.
  revert st. induction events as [| e events IH]; intros st Hz; [done |].
  simpl. apply IH. by apply dispatch_not_negative.
Qed.

(** C3.  A scroll event of vertical delta [y] replaces [zoom] by the larger
    of 0 and [zoom + y/4]; started from 40, whatever events the window
    delivers, [zoom] is never below 0. *)
Theorem scroll_callback_clamps (w : GLFWwindow) (st : state) (x y : double)
    (events : list event) :
  same_number (zoom (scroll_callback st x y))
    (fmaximum (float_of_Z 0)
       (fadd (zoom st) (fdiv (double_to_float y) (float_of_Z 4)))) = true
  /\ flt (zoom (scroll_callback st x y)) (float_of_Z 0) = false
  /\ flt (zoom (glfwPollEvents (initial_state w) events)) (float_of_Z 0) = false.
Proof.
  split; [apply clamp_is_maximum |].
  split; [apply clamp_not_negative |].
  by apply glfwPollEvents_not_negative.
Qed.

(** Scrolling down sixty times from 40, four units at a time, ends at 0. *)
Example scroll_down_to_zero (w : GLFWwindow) :
  zoom (glfwPollEvents (initial_state w)
          (repeat (ScrollEvent (double_of_Z 0) (double_of_Z (-4))) 60))
  = float_of_Z 0.
Proof. vm_compute. reflexivity. Qed.

(** ** The rotation *)

(** C6.  A cursor event changes the rotation only while the cursor is
    captured; it then adds [(x - cursorX)/10] and [(y - cursorY)/10], where
    [(cursorX, cursorY)] is the position of the previous event, and records
    [(x, y)]; otherwise it leaves the state as it is. *)
Theorem cursor_position_callback_rotates (st : state) (x y x' y' : double) :
  rotation (cursor_position_callback st x y)
  = (if drag_active st
     then rotated (rotation st) (cursorX st) (cursorY st) x y
     else rotation st)
  /\ (cursorX (cursor_position_callback st x y),
      cursorY (cursor_position_callback st x y))
     = (if drag_active st then (x, y) else (cursorX st, cursorY st))
  /\ (if drag_active st then True else cursor_position_callback st x y = st)
  /\ rotation (cursor_position_callback (cursor_position_callback st x y) x' y')
     = (if drag_active st
        then rotated (rotated (rotation st) (cursorX st) (cursorY st) x y)
                     x y x' y'
        else rotation st).
Proof.
  unfold cursor_position_callback, drag_active, glfwGetInputMode.
  rewrite Z.eqb_refl.
  destruct (cursor_mode (window st) =? GLFW_CURSOR_DISABLED) eqn:E; simpl.
  - rewrite E. done.
  - rewrite E. done.
Qed.

(** Ten units to the right of the place of the press turn by one degree. *)
Example drag_ten_units :
  rotation
    (glfwPollEvents (initial_state sample_window)
       [ MouseButtonEvent GLFW_MOUSE_BUTTON_LEFT GLFW_PRESS 0;
         CursorPosEvent (double_of_Z 110) (double_of_Z 50) ])
  = mk_vec2 (float_of_Z 1) (float_of_Z 0).
Proof. vm_compute. reflexivity. Qed.

(** ** Pressing the button *)

Lemma press_records_cursor (st : state) (mods : Z) :
  mouse_button_callback st GLFW_MOUSE_BUTTON_LEFT GLFW_PRESS mods
  = {| rotation := rotation st; zoom := zoom st;
       cursorX := fst (cursor_pos (window st));
       cursorY := snd (cursor_pos (window st));
       window := {| cursor_mode := GLFW_CURSOR_DISABLED;
                    cursor_pos := cursor_pos (window st);
                    should_close := should_close (window st) |} |}.
Proof.
  unfold mouse_button_callback, glfwGetCursorPos, glfwSetInputMode. simpl.
  by destruct (cursor_pos (window st)).
Qed.

(** A release, like any action of the left button but a press, frees the
    cursor. *)
Lemma release_ends_drag (st : state) (mods : Z) :
  drag_active (mouse_button_callback st GLFW_MOUSE_BUTTON_LEFT GLFW_RELEASE mods)
  = false.
Proof. reflexivity. Qed.

(** A cursor event outside drag mode only moves the reported position. *)
Lemma free_move (st : state) (x y : double) :
  drag_active st = false ->
  dispatch st (CursorPosEvent x y)
  = {| rotation := rotation st; zoom := zoom st;
       cursorX := cursorX st; cursorY := cursorY st;
       window := {| cursor_mode := cursor_mode (window st);
                    cursor_pos := (x, y);
                    should_close := should_close (window st) |} |}.
Proof.
  unfold drag_active. intros Hd. simpl.
  unfold cursor_position_callback, glfwGetInputMode. simpl. by rewrite Hd.
Qed.

Lemma last_cons_default {A : Type} (a d : A) (l : list A) :
  List.last (a :: l) d = List.last l a.
Proof.
  revert a d. induction l as [| b l IH]; intros a d; [done |].
  change (List.last (a :: b :: l) d) with (List.last (b :: l) d).
  by rewrite !IH.
Qed.

Lemma free_moves (free : list (double * double)) (st : state) :
  drag_active st = false ->
  glfwPollEvents st (moves free)
  = {| rotation := rotation st; zoom := zoom st;
       cursorX := cursorX st; cursorY := cursorY st;
       window := {| cursor_mode := cursor_mode (window st);
                    cursor_pos := List.last free (cursor_pos (window st));
                    should_close := should_close (window st) |} |}.
Proof.
  revert st. induction free as [| [x y] free IH]; intros st Hd.
  - simpl. by destruct st as [? ? ? ? []].
  - change (glfwPollEvents st (moves ((x, y) :: free)))
      with (glfwPollEvents (dispatch st (CursorPosEvent x y)) (moves free)).
    rewrite (free_move st x y Hd), IH by exact Hd.
    cbn [rotation zoom cursorX cursorY window cursor_mode cursor_pos should_close].
    by rewrite last_cons_default.
Qed.

Lemma dsub_self (a : double) : is_finite a = true -> dsub a a = S754_zero false.
Proof.
  destruct a as [[] | | | s m e]; try done. intros _.
  unfold dsub, SFsub. by rewrite Z.sub_diag.
Qed.

Lemma fadd_zero (r : float) : same_number (fadd r (S754_zero false)) r = true.
Proof.
  destruct r as [[] | [] | | s m e]; try reflexivity. apply same_number_refl.
Qed.

Lemma rotated_in_place (r : vec2 float) (x y : double) :
  is_finite x && is_finite y = true -> same_vec2 (rotated r x y x y) r = true.
Proof.
  intros [Hx Hy]%andb_prop. unfold rotated, same_vec2. simpl.
  rewrite (dsub_self x Hx), (dsub_self y Hy).
  change (fdiv (double_to_float (S754_zero false)) (float_of_Z 10))
    with (S754_zero false).
  by rewrite !fadd_zero.
Qed.

(** C10.  A press of the left button leaves the rotation alone and takes the
    cursor position of that moment as the reference point: after the cursor
    has moved freely, the first cursor event of the new drag adds a tenth of
    its distance from the place of the press, whatever reference point was
    left from before, and adds nothing when it reports that very place. *)
Theorem press_sets_reference (st : state) (free : list (double * double))
    (mods : Z) (x y : double) :
  drag_active st = false ->
  let st1 := glfwPollEvents st (moves free) in
  let st2 := dispatch st1 (MouseButtonEvent GLFW_MOUSE_BUTTON_LEFT GLFW_PRESS mods) in
  let p := cursor_pos (window st1) in
  p = List.last free (cursor_pos (window st))
  /\ rotation st2 = rotation st
  /\ (cursorX st2, cursorY st2) = p
  /\ drag_active st2 = true
  /\ rotation (dispatch st2 (CursorPosEvent x y))
     = rotated (rotation st) (fst p) (snd p) x y
  /\ (is_finite (fst p) && is_finite (snd p) = true ->
      same_vec2 (rotation (dispatch st2 (CursorPosEvent (fst p) (snd p))))
                (rotation st) = true).
Proof.
  intros Hd st1 st2 p. subst st2 p st1. rewrite (free_moves free st Hd).
  cbn [dispatch]. rewrite press_records_cursor. cbn.
  destruct (List.last free (cursor_pos (window st))) as [px py]. cbn.
  repeat split. intros Hf. by apply rotated_in_place.
Qed.

Lemma press_sets_reference_sample :
  let st := initial_state sample_window in
  let free := [(double_of_Z 300, double_of_Z 200); (double_of_Z 7, double_of_Z 9)] in
  let st1 := glfwPollEvents st (moves free) in
  let st2 := dispatch st1 (MouseButtonEvent GLFW_MOUSE_BUTTON_LEFT GLFW_PRESS 0) in
  let p := cursor_pos (window st1) in
  p = List.last free (cursor_pos (window st))
  /\ rotation st2 = rotation st
  /\ (cursorX st2, cursorY st2) = p
  /\ drag_active st2 = true
  /\ rotation (dispatch st2 (CursorPosEvent (double_of_Z 17) (double_of_Z 9)))
     = rotated (rotation st) (fst p) (snd p) (double_of_Z 17) (double_of_Z 9)
  /\ (is_finite (fst p) && is_finite (snd p) = true ->
      same_vec2 (rotation (dispatch st2 (CursorPosEvent (fst p) (snd p))))
                (rotation st) = true).
Proof.
  apply (press_sets_reference (initial_state sample_window)
           [(double_of_Z 300, double_of_Z 200); (double_of_Z 7, double_of_Z 9)]
           0 (double_of_Z 17) (double_of_Z 9)).
  reflexivity.
Defined.

(** A drag of ten units, a release, free moves to (7, 9), then a press and a
    move to (17, 9): each drag turns by one degree, the free moves by none. *)
Example press_after_free_moves :
  rotation
    (glfwPollEvents (initial_state sample_window)
       ([ MouseButtonEvent GLFW_MOUSE_BUTTON_LEFT GLFW_PRESS 0;
          CursorPosEvent (double_of_Z 110) (double_of_Z 50);
          MouseButtonEvent GLFW_MOUSE_BUTTON_LEFT GLFW_RELEASE 0 ]
        ++ moves [(double_of_Z 300, double_of_Z 200); (double_of_Z 7, double_of_Z 9)]
        ++ [ MouseButtonEvent GLFW_MOUSE_BUTTON_LEFT GLFW_PRESS 0;
             CursorPosEvent (double_of_Z 17) (double_of_Z 9) ]))
  = mk_vec2 (float_of_Z 2) (float_of_Z 0).
Proof. vm_compute. reflexivity. Qed.

(** ** The shader builder *)

(** C8.  In a debug build, on a driver that compiles and links everything
    and leaves a warning in the vertex shader's info log, [checkShader]
    deletes the vertex shader (name 1) right after compiling it:
    [glAttachShader] and [glDetachShader] then fail on it and
    [glDeleteShader] is asked for it a second time.  With a note in the link
    log, [checkProgram] deletes the program (name 3): the handle returned
    names no object, and shutdown deletes it again.  In a release build the
    same happens to a shader that fails to compile. *)
Theorem createShaderProgram_deletes_twice :
  (let '(handles, s, s') := build_then_shutdown false warning_driver in
   handles = (3, 4)
   /\ count_calls (is_DeleteShader 1) s = 2%nat
   /\ count_calls (is_DetachShader 3 1) s = 1%nat
   /\ gl_errors s = [GL_INVALID_VALUE; GL_INVALID_VALUE; GL_INVALID_VALUE]
   /\ attached_shaders <$> (program_objects s !! 3) = Some [])
  /\ (let '(handles, s, s') := build_then_shutdown false link_note_driver in
      handles = (3, 4)
      /\ program_objects s !! 3 = None
      /\ count_calls (is_DeleteProgram 3) s = 1%nat
      /\ count_calls (is_DeleteProgram 3) s' = 2%nat)
  /\ (let '(handles, s, s') := build_then_shutdown true failing_driver in
      handles = (3, 4)
      /\ count_calls (is_DeleteShader 2) s = 2%nat).
Proof. vm_compute. repeat split; reflexivity. Qed.

(** Outside those cases the builder does what it is meant to do: when none of
    the three checks runs its branch, each shader is detached once and
    deleted once, no shader object is left, and the program lives until
    shutdown deletes it, once. *)
Lemma createShaderProgram_quiet (NDEBUG : bool) (d : driver) :
  check_fires NDEBUG (fst (compile_result d GL_VERTEX_SHADER))
              (snd (compile_result d GL_VERTEX_SHADER)) = false ->
  check_fires NDEBUG (fst (compile_result d GL_FRAGMENT_SHADER))
              (snd (compile_result d GL_FRAGMENT_SHADER)) = false ->
  check_fires NDEBUG (fst (link_result d)) (snd (link_result d)) = false ->
  let '(handles, s, s') := build_then_shutdown NDEBUG d in
  handles = (3, 4)
  /\ count_calls (is_DeleteShader 1) s = 1%nat
  /\ count_calls (is_DetachShader 3 1) s = 1%nat
  /\ count_calls (is_DeleteShader 2) s = 1%nat
  /\ count_calls (is_DetachShader 3 2) s = 1%nat
  /\ shader_objects s = ∅
  /\ is_Some (program_objects s !! 3)
  /\ count_calls (is_DeleteProgram 3) s = 0%nat
  /\ count_calls (is_DeleteProgram 3) s' = 1%nat
  /\ program_objects s' !! 3 = None.
Proof.
  destruct d as [cr [sl ll]].
  unfold build_then_shutdown, createShaderProgram, createShader.
  cbn [compile_result link_result fst snd].
  destruct (cr GL_VERTEX_SHADER) as [s1 l1], (cr GL_FRAGMENT_SHADER) as [s2 l2].
  cbn [fst snd]. intros H1 H2 H3.
  destruct NDEBUG;
    (destruct l1 as [| ? | ?];
       [| destruct s1 as [| ? | ?]; try (vm_compute in H1; discriminate H1) |]);
    (destruct l2 as [| ? | ?];
       [| destruct s2 as [| ? | ?]; try (vm_compute in H2; discriminate H2) |]);
    (destruct ll as [| ? | ?], sl as [| ? | ?];
       try (vm_compute in H3; discriminate H3));
    vm_compute; repeat split; eauto.
Qed.
(** ** The camera

    [camera] computes in binary32, where every product and sum is rounded:
    the matrix it returns is the product of the five matrices it is described
    with only up to rounding. *)





(** With a C library whose cosine and sine are exact at 0, the two rotations
    by 0 degrees leave the view matrix as [glm::translate] built it, bit for
    bit and for every [zoom]. *)

Section CameraFloat.

Context (m : libm).
Hypothesis cos_zero : cosf m (S754_zero false) = float_of_Z 1.
Hypothesis sin_zero : sinf m (S754_zero false) = S754_zero false.

Local Abbreviation F := (float_scalar m).
Local Abbreviation f0 := (S754_zero false).
Local Abbreviation f1 := (float_of_Z 1).




End CameraFloat.



(** ** The frame loop *)

Lemma tick_draws_nothing (t : timing) (now : double) :
  List.filter is_draw (snd (tick t now)) = [].
Proof. unfold tick. by destruct (fge _ _). Qed.

Lemma render_draws_once (m : libm) (r : resources) (g : model) (st : state) :
  List.filter is_draw (render m r g st)
  = [ DrawElementsInstanced GL_TRIANGLES
        (to_int32 (Z.of_nat (length (indices g)))) GL_UNSIGNED_INT 0 1 ].
Proof. reflexivity. Qed.

Lemma frame_draws (m : libm) (r : resources) (g : model) (now : double)
    (events : list event) (st : state) (t : timing) :
  List.filter is_draw (snd (frame m r g now events (st, t)))
  = [ DrawElementsInstanced GL_TRIANGLES
        (to_int32 (Z.of_nat (length (indices g)))) GL_UNSIGNED_INT 0 1 ]
  /\ fst (fst (frame m r g now events (st, t))) = glfwPollEvents st events.
Proof.
  unfold frame. pose proof (tick_draws_nothing t now) as Ht.
  destruct (tick t now) as [t' title]. cbn [fst snd] in *.
  rewrite !List.filter_app, Ht, render_draws_once. done.
Qed.

(** C7.  One iteration of the frame loop on the loaded one-triangle mesh, with
    [zoom] at 40 and no rotation, issues one indexed draw call, of index
    count 3 and instance count 1; without input events it leaves [zoom] and
    [rotation] as they were.  In any state the iteration draws once, over the
    whole index list, and changes the camera state only through the events
    it dispatches. *)
Theorem frame_draws_once (m : libm) (r : resources) (w : GLFWwindow)
    (t : timing) (now : double) (g : model) (st : state)
    (events : list event) :
  (exists g3,
      loadModel triangle_attrib triangle_shapes empty_model = Some g3
      /\ List.filter is_draw (snd (frame m r g3 now [] (initial_state w, t)))
         = [ DrawElementsInstanced GL_TRIANGLES 3 GL_UNSIGNED_INT 0 1 ]
      /\ zoom (fst (fst (frame m r g3 now [] (initial_state w, t))))
         = float_of_Z 40
      /\ rotation (fst (fst (frame m r g3 now [] (initial_state w, t))))
         = mk_vec2 (float_of_Z 0) (float_of_Z 0))
  /\ List.filter is_draw (snd (frame m r g now events (st, t)))
     = [ DrawElementsInstanced GL_TRIANGLES
           (to_int32 (Z.of_nat (length (indices g)))) GL_UNSIGNED_INT 0 1 ]
  /\ fst (fst (frame m r g now events (st, t))) = glfwPollEvents st events
  /\ fst (fst (frame m r g now [] (st, t))) = st.
Proof.
  split; [| split; [apply frame_draws | split; apply frame_draws]].
  eexists. split; [vm_compute; reflexivity |].
  split; [apply frame_draws |].
  unfold frame. destruct (tick t now). split; reflexivity.
Qed.

(* ================================================================== *)
(** * Part III: further properties                                     *)
(* ================================================================== *)

(** ** When the loader is defined *)

Lemma int_checked_Some (z r : Z) :
  int_checked z = Some r -> r = z /\ INT_MIN <= z <= INT_MAX.
Proof.
  unfold int_checked.
  destruct (Z.leb_spec INT_MIN z), (Z.leb_spec z INT_MAX); simpl;
    intros [= <-]; lia.
Qed.

Lemma int_offset_Some (a b c r : Z) :
  int_mul a b ≫= (λ k, int_add k c) = Some r ->
  r = a * b + c /\ a * b + c <= INT_MAX.
Proof.
  unfold int_mul, int_add. destruct (int_checked (a * b)) as [k |] eqn:E; simpl;
    [| done].
  apply int_checked_Some in E as [-> _]. intros [-> ?]%int_checked_Some. lia.
Qed.

Lemma vector_at_Some {A : Type} (v : list A) (i : Z) (x : A) :
  vector_at v i = Some x -> 0 <= i < Z.of_nat (length v) /\ In x v.
Proof.
  unfold vector_at.
  destruct (Z.leb_spec 0 i), (Z.ltb_spec i (Z.of_nat (length v))); simpl;
    try done.
  intros Hl. split; [lia |]. apply list_elem_of_In. by eapply list_elem_of_lookup_2.
Qed.

Lemma make_vertex_Some (attrib : tinyobj.attrib_t) (index : tinyobj.index_t)
    (v : Vertex) :
  make_vertex attrib index = Some v -> corner_in_range attrib index = true.
Proof.
  unfold make_vertex, corner_in_range.
  set (vi := tinyobj.vertex_index index). set (ti := tinyobj.texcoord_index index).
  destruct (int_mul 3 vi ≫= (λ k, int_add k 0)) as [i0 |] eqn:E0; simpl; [| done].
  destruct (vector_at _ i0) as [px |] eqn:V0; simpl; [| done].
  destruct (int_mul 3 vi ≫= (λ k, int_add k 1)) as [i1 |] eqn:E1; simpl; [| done].
  destruct (vector_at _ i1) as [py |] eqn:V1; simpl; [| done].
  destruct (int_mul 3 vi ≫= (λ k, int_add k 2)) as [i2 |] eqn:E2; simpl; [| done].
  destruct (vector_at _ i2) as [pz |] eqn:V2; simpl; [| done].
  destruct (int_mul 2 ti ≫= (λ k, int_add k 0)) as [j0 |] eqn:F0; simpl; [| done].
  destruct (vector_at _ j0) as [tu |] eqn:W0; simpl; [| done].
  destruct (int_mul 2 ti ≫= (λ k, int_add k 1)) as [j1 |] eqn:F1; simpl; [| done].
  destruct (vector_at _ j1) as [tv |] eqn:W1; simpl; [| done].
  intros _.
  apply int_offset_Some in E0 as [-> ?]. apply int_offset_Some in E2 as [-> ?].
  apply int_offset_Some in F0 as [-> ?]. apply int_offset_Some in F1 as [-> ?].
  apply vector_at_Some in V0 as [? _]. apply vector_at_Some in V2 as [? _].
  apply vector_at_Some in W0 as [? _]. apply vector_at_Some in W1 as [? _].
  repeat (apply andb_true_intro; split);
    first [apply Z.leb_le | apply Z.ltb_lt]; lia.
Qed.

Lemma mapM_make_vertex_Some (attrib : tinyobj.attrib_t)
    (l : list tinyobj.index_t) (cs : list Vertex) :
  mapM (make_vertex attrib) l = Some cs ->
  forallb (corner_in_range attrib) l = true.
Proof.
  revert cs. induction l as [| i l IH]; intros cs; simpl; [done |].
  destruct (make_vertex attrib i) as [v |] eqn:E; simpl; [| done].
  destruct (mapM (make_vertex attrib) l) as [cs' |]; simpl; [| done].
  intros _. rewrite (make_vertex_Some _ _ _ E). simpl. by apply (IH cs').
Qed.

(** The loader has a defined result exactly on the meshes whose face corners
    are in range: each names a position and a texture coordinate that the
    attribute arrays hold.  That is so whatever the two global vectors hold
    when it starts; and one face corner that names no texture coordinate
    (tinyobjloader gives it the index -1) leaves the loader without a
    defined result, for it reads [texcoords[-2]]. *)
Theorem loadModel_defined_iff (attrib : tinyobj.attrib_t)
    (shapes : list tinyobj.shape_t) (g : model) :
  (is_Some (loadModel attrib shapes g) <-> mesh_in_range attrib shapes = true)
  /\ ((exists c, In c (corners shapes) /\ tinyobj.texcoord_index c < 0) ->
      loadModel attrib shapes g = None).
Proof.
  assert (is_Some (loadModel attrib shapes g)
          <-> mesh_in_range attrib shapes = true) as Hiff.
  { rewrite loadModel_push_all. split.
    - intros [g' Hg].
      destruct (candidates attrib shapes) as [cs |] eqn:E; [| done].
      by apply (mapM_make_vertex_Some _ _ cs).
    - intros Hr.
      destruct (candidates_in_range attrib shapes Hr) as (combos & _ & ->).
      by eexists. }
  split; [exact Hiff |]. intros (c & Hin & Hneg).
  destruct (loadModel attrib shapes g) as [g' |] eqn:Hg; [| done].
  assert (mesh_in_range attrib shapes = true) as Hr by (apply Hiff; eauto).
  unfold mesh_in_range in Hr. rewrite forallb_forall in Hr.
  specialize (Hr c Hin). unfold corner_in_range in Hr.
  bool_split. lia.
Qed.

(** The mesh without texture coordinates: a face corner with
    [texcoord_index = -1] makes the loader read before its array. *)
Example loadModel_without_texcoords :
  loadModel triangle_attrib (one_shape [corner 0 (-1)]) empty_model = None.
Proof. reflexivity. Qed.

(** ** The vertex list has no duplicates and keeps the file order *)

Lemma known_false_app (keys : list Vertex) (c a : Vertex) :
  known (keys ++ [c]) a = false -> known keys a = false /\ Vertex_eq c a = false.
Proof. rewrite known_app. apply orb_false_elim. Qed.

Lemma firsts_unknown (cs keys : list Vertex) (i : nat) (a : Vertex) :
  firsts keys cs !! i = Some a -> known keys a = false.
Proof.
  revert keys i. induction cs as [| c cs IH]; intros keys i; simpl; [done |].
  destruct (known keys c) eqn:Hk; [apply IH |].
  destruct i as [| i]; simpl.
  - by intros [= <-].
  - intros Ha. by apply IH, known_false_app in Ha as [? _].
Qed.

Lemma firsts_no_duplicates (cs keys : list Vertex) :
  no_duplicates (firsts keys cs).
Proof.
  revert keys. induction cs as [| c cs IH]; intros keys; simpl; [by intros [] |].
  destruct (known keys c) eqn:Hk; [apply IH |].
  intros i j a b Ha Hb Hij. destruct i as [| i], j as [| j]; simpl in *.
  - done.
  - injection Ha as <-. by apply firsts_unknown, known_false_app in Hb as [_ ?].
  - injection Hb as <-. rewrite Vertex_eq_sym.
    by apply firsts_unknown, known_false_app in Ha as [_ ?].
  - apply (IH (keys ++ [c]) i j a b Ha Hb). lia.
Qed.

Lemma firsts_sublist (cs keys : list Vertex) : sublist (firsts keys cs) cs.
Proof.
  revert keys. induction cs as [| c cs IH]; intros keys; simpl; [constructor |].
  destruct (known keys c); [apply sublist_cons | apply sublist_skip]; apply IH.
Qed.

Lemma loadModel_from_empty (attrib : tinyobj.attrib_t)
    (shapes : list tinyobj.shape_t) :
  mesh_in_range attrib shapes = true ->
  exists cs, candidates attrib shapes = Some cs
             /\ length cs = length (corners shapes)
             /\ loadModel attrib shapes empty_model
                = Some (snd (push_all cs ([], empty_model)))
             /\ vertices (snd (push_all cs ([], empty_model))) = firsts [] cs.
Proof.
  intros Hr. destruct (candidates_in_range attrib shapes Hr) as (combos & Hc & Hv).
  exists (map vertex_of combos). split; [done |]. split.
  - rewrite length_map. apply (mapM_length _ _ _ Hc).
  - split; [rewrite loadModel_push_all, Hv; reflexivity |].
    by rewrite push_all_vertices.
Qed.

(** Loaded into empty vectors, a mesh gives a vertex list in which no two
    slots hold vertices that compare equal. *)
Theorem loadModel_no_duplicates (attrib : tinyobj.attrib_t)
    (shapes : list tinyobj.shape_t) :
  mesh_in_range attrib shapes = true ->
  exists g, loadModel attrib shapes empty_model = Some g
            /\ no_duplicates (vertices g).
Proof.
  intros Hr. destruct (loadModel_from_empty attrib shapes Hr)
    as (cs & _ & _ & Hg & Hv).
  eexists. split; [exact Hg |]. rewrite Hv. apply firsts_no_duplicates.
Qed.

Lemma loadModel_no_duplicates_fan :
  exists g, loadModel fan_attrib fan_shapes empty_model = Some g
            /\ no_duplicates (vertices g).
Proof.
  apply (loadModel_no_duplicates fan_attrib fan_shapes). vm_compute. reflexivity.
Defined.

Lemma known_trans (keys : list Vertex) (c x : Vertex) :
  known keys c = true -> Vertex_eq c x = true -> known keys x = true.
Proof.
  unfold known. rewrite !existsb_exists. intros (k & Hin & Hk) Hx.
  exists k. split; [done |]. by apply (Vertex_eq_trans k c x).
Qed.

Lemma firsts_first_references (cs keys earlier : list Vertex) :
  (forall x, known keys x = known earlier x) ->
  firsts keys cs = first_references earlier cs.
Proof.
  revert keys earlier. induction cs as [| c cs IH]; intros keys earlier Hk;
    simpl; [done |].
  rewrite <- Hk. destruct (known keys c) eqn:Hc.
  - apply IH. intros x. rewrite known_app, <- Hk.
    destruct (Vertex_eq c x) eqn:Hx; [| by rewrite orb_false_r].
    by rewrite (known_trans keys c x Hc Hx).
  - f_equal. apply IH. intros x. by rewrite !known_app, Hk.
Qed.

(** The vertex list holds exactly the candidate vertices of the face corners
    that compare unequal to every earlier candidate, in the order of the
    file: the vertices stand in the order in which the file first refers to
    them.  So it is the candidate list with entries left out, and it starts
    with the first candidate. *)
Theorem loadModel_keeps_order (attrib : tinyobj.attrib_t)
    (shapes : list tinyobj.shape_t) :
  mesh_in_range attrib shapes = true ->
  exists cs g, candidates attrib shapes = Some cs
               /\ loadModel attrib shapes empty_model = Some g
               /\ vertices g = first_references [] cs
               /\ sublist (vertices g) cs
               /\ head (vertices g) = head cs.
Proof.
  intros Hr. destruct (loadModel_from_empty attrib shapes Hr)
    as (cs & Hc & _ & Hg & Hv).
  eexists cs, _. split; [done |]. split; [exact Hg |]. rewrite Hv.
  split; [by apply firsts_first_references |].
  split; [apply firsts_sublist |]. by destruct cs.
Qed.

Lemma loadModel_keeps_order_fan :
  exists cs g, candidates fan_attrib fan_shapes = Some cs
               /\ loadModel fan_attrib fan_shapes empty_model = Some g
               /\ vertices g = first_references [] cs
               /\ sublist (vertices g) cs
               /\ head (vertices g) = head cs.
Proof.
  apply (loadModel_keeps_order fan_attrib fan_shapes). vm_compute. reflexivity.
Defined.

(** The fan: of its nine candidates, six are first references. *)
Example first_references_fan :
  (λ cs, (length cs, length (first_references [] cs)))
    <$> candidates fan_attrib fan_shapes
  = Some (9%nat, 6%nat).
Proof. vm_compute. reflexivity. Qed.

(** ** Indices and positions *)

Lemma push_vertex_index (m : unordered_map) (g : model) (c : Vertex) :
  bounded_state (m, g) ->
  exists m' ext i,
    push_vertex (m, g) c
    = (m', {| vertices := vertices g ++ ext; indices := indices g ++ [i] |})
    /\ 0 <= i <= Z.of_nat (length (vertices g)) /\ (length ext <= 1)%nat.
Proof.
  intros [Hm _]. simpl in Hm.
  pose proof (to_uint32_bounds (length (vertices g))) as Hu.
  destruct (known (map fst m) c) eqn:Hk.
  - destruct (push_vertex_known m g c Hk) as (e & Hin & _ & ->).
    exists m, [], (snd e). rewrite app_nil_r. split; [done |].
    rewrite List.Forall_forall in Hm. specialize (Hm e Hin).
    unfold in_bounds in Hm. simpl. lia.
  - destruct (Vertex_eq c c) eqn:Hc.
    + rewrite (push_vertex_new m g c Hk Hc). eexists _, [c], _.
      split; [done |]. simpl. lia.
    + rewrite (push_vertex_nan m g c Hk Hc). eexists _, [c], _.
      split; [done |]. simpl. lia.
Qed.

Lemma push_all_index_le (cs : list Vertex) (m : unordered_map) (g : model)
    (k : nat) (i : Z) :
  bounded_state (m, g) ->
  (length (vertices g) <= length (indices g))%nat ->
  (length (indices g) <= k)%nat ->
  indices (snd (push_all cs (m, g))) !! k = Some i ->
  0 <= i <= Z.of_nat k.
Proof.
  revert m g. induction cs as [| c cs IH]; intros m g Hb Hlen Hk.
  - simpl. intros Hl. apply lookup_lt_Some in Hl. lia.
  - rewrite push_all_cons.
    pose proof (push_vertex_bounded (m, g) c Hb) as Hb'.
    destruct (push_vertex_index m g c Hb) as (m' & ext & j & E & Hj & He).
    rewrite E in Hb' |- *. intros Hl.
    destruct (decide (k = length (indices g))) as [-> | Hne].
    + destruct (push_all_indices_prefix cs m'
                  {| vertices := vertices g ++ ext; indices := indices g ++ [j] |})
        as (is' & Hi & _).
      rewrite Hi in Hl. cbn [indices] in Hl.
      rewrite <- app_assoc in Hl. change ([j] ++ is') with (j :: is') in Hl.
      rewrite list_lookup_middle in Hl by done.
      injection Hl as <-. lia.
    + apply (IH m' _ Hb'); cbn [vertices indices];
        rewrite ?length_app; simpl; try lia. exact Hl.
Qed.

(** The index stored for the k-th face corner (counted from 0) is at most k:
    the first index is 0, and an index never runs ahead of the corners read
    so far. *)
Theorem loadModel_index_le_position (attrib : tinyobj.attrib_t)
    (shapes : list tinyobj.shape_t) :
  mesh_in_range attrib shapes = true ->
  exists g, loadModel attrib shapes empty_model = Some g
            /\ forall k i, indices g !! k = Some i -> 0 <= i <= Z.of_nat k.
Proof.
  intros Hr. destruct (loadModel_from_empty attrib shapes Hr)
    as (cs & _ & _ & Hg & _).
  eexists. split; [exact Hg |]. intros k i.
  apply push_all_index_le; [apply bounded_initial | simpl; lia | simpl; lia].
Qed.

Lemma loadModel_index_le_position_fan :
  exists g, loadModel fan_attrib fan_shapes empty_model = Some g
            /\ forall k i, indices g !! k = Some i -> 0 <= i <= Z.of_nat k.
Proof.
  apply (loadModel_index_le_position fan_attrib fan_shapes).
  vm_compute. reflexivity.
Defined.

(** ** The grouping of the face corners into shapes does not matter *)

(** Two lists of shapes with the same face corners in the same order load
    alike: the table is shared by all shapes of a call. *)
Theorem loadModel_ignores_grouping (attrib : tinyobj.attrib_t)
    (shapes1 shapes2 : list tinyobj.shape_t) (g : model) :
  corners shapes1 = corners shapes2 ->
  loadModel attrib shapes1 g = loadModel attrib shapes2 g.
Proof.
  intros Hc. rewrite !loadModel_push_all. unfold candidates. by rewrite Hc.
Qed.

Lemma loadModel_ignores_grouping_fan :
  loadModel fan_attrib
    (one_shape [corner 0 0; corner 1 1; corner 2 2]
     ++ one_shape [corner 0 0; corner 2 2; corner 3 3]
     ++ one_shape [corner 0 0; corner 4 4; corner 5 5]) empty_model
  = loadModel fan_attrib fan_shapes empty_model.
Proof.
  apply (loadModel_ignores_grouping fan_attrib). reflexivity.
Defined.

(** ** Meshes without NaN: every vertex is used, and loads can be stacked *)

Lemma nan_free_candidates (attrib : tinyobj.attrib_t)
    (l : list tinyobj.index_t) (cs : list Vertex) :
  mesh_nan_free attrib = true ->
  mapM (make_vertex attrib) l = Some cs ->
  Forall (λ c, Vertex_eq c c = true) cs.
Proof.
  unfold mesh_nan_free. rewrite forallb_app.
  intros [Hv Ht]%andb_prop. rewrite forallb_forall in Hv, Ht.
  revert cs. induction l as [| i l IH]; intros cs; simpl.
  - intros [= <-]. constructor.
  - destruct (make_vertex attrib i) as [v |] eqn:E; simpl; [| done].
    destruct (mapM (make_vertex attrib) l) as [cs' |]; simpl; [| done].
    intros [= <-]. constructor; [| by apply IH].
    clear IH. unfold make_vertex in E.
    repeat match type of E with
           | (?o ≫= _) = Some _ =>
               let H := fresh "H" in
               destruct o eqn:H; simpl in E; [| discriminate E]
           end.
    injection E as <-. rewrite Vertex_eq_refl_iff. unfold vertex_has_nan. simpl.
    repeat match goal with
           | H : vector_at (tinyobj.vertices attrib) _ = Some ?x |- _ =>
               apply vector_at_Some in H as [_ H]; apply Hv in H;
               apply negb_true_iff in H; rewrite H
           | H : vector_at (tinyobj.texcoords attrib) _ = Some ?x |- _ =>
               apply vector_at_Some in H as [_ H]; apply Ht in H;
               apply negb_true_iff in H; rewrite H
           end.
    reflexivity.
Qed.

Lemma push_vertex_found (m : unordered_map) (g : model) (c : Vertex)
    (e : Vertex * Z) :
  find (key_is c) m = Some e ->
  push_vertex (m, g) c
  = (m, {| vertices := vertices g; indices := indices g ++ [snd e] |}).
Proof.
  intros Hf. unfold push_vertex, um_count.
  destruct (find_some _ _ Hf) as [Hin He].
  assert (existsb (key_is c) m = true) as -> by (apply existsb_exists; eauto).
  simpl. unfold um_index. by rewrite Hf.
Qed.

Lemma find_shift_table (n : nat) (m : unordered_map) (c : Vertex) :
  find (key_is c) (shift_table n m)
  = (λ e, (fst e, shift_index n (snd e))) <$> find (key_is c) m.
Proof.
  induction m as [| e m IH]; simpl; [done |].
  unfold key_is at 1 3. simpl. by destruct (Vertex_eq (fst e) c).
Qed.

Lemma keys_shift_table (n : nat) (m : unordered_map) :
  map fst (shift_table n m) = map fst m.
Proof. unfold shift_table. rewrite map_map. by apply map_ext. Qed.

(** One pass of the loop body, seen from a vertex list that starts [vs0]
    earlier. *)
Lemma push_vertex_shift (vs0 : list Vertex) (is0 : list Z) (m : unordered_map)
    (g : model) (c : Vertex) :
  Vertex_eq c c = true ->
  Z.of_nat (length vs0) + Z.of_nat (length (vertices g)) < 2 ^ 32 ->
  push_vertex
    (shift_table (length vs0) m,
     {| vertices := vs0 ++ vertices g;
        indices := is0 ++ map (shift_index (length vs0)) (indices g) |}) c
  = (shift_table (length vs0) (fst (push_vertex (m, g) c)),
     {| vertices := vs0 ++ vertices (snd (push_vertex (m, g) c));
        indices := is0 ++ map (shift_index (length vs0))
                              (indices (snd (push_vertex (m, g) c))) |}).
Proof.
  intros Hc Hlen. destruct (known (map fst m) c) eqn:Hk.
  - destruct (find_some_known m c Hk) as (e & Hf & _ & _).
    rewrite (push_vertex_found m g c e Hf).
    rewrite (push_vertex_found _ _ c (fst e, shift_index (length vs0) (snd e)))
      by (by rewrite find_shift_table, Hf).
    cbn [fst snd vertices indices]. by rewrite map_app, app_assoc.
  - rewrite (push_vertex_new m g c Hk Hc).
    rewrite push_vertex_new; [| by rewrite keys_shift_table | done].
    cbn [fst snd vertices indices].
    rewrite length_app, !to_uint32_small by (rewrite ?Nat2Z.inj_add; lia).
    unfold shift_table, shift_index.
    rewrite !map_app, !app_assoc, Nat2Z.inj_add. reflexivity.
Qed.

Lemma push_vertex_grows (m : unordered_map) (g : model) (c : Vertex) :
  (length (vertices (snd (push_vertex (m, g) c))) <= S (length (vertices g)))%nat.
Proof.
  destruct (known (map fst m) c) eqn:Hk.
  - destruct (push_vertex_known m g c Hk) as (e & _ & _ & ->). simpl. lia.
  - destruct (Vertex_eq c c) eqn:Hc.
    + rewrite (push_vertex_new m g c Hk Hc). simpl. rewrite length_app. simpl. lia.
    + rewrite (push_vertex_nan m g c Hk Hc). simpl. rewrite length_app. simpl. lia.
Qed.

Lemma push_all_shift (cs : list Vertex) (vs0 : list Vertex) (is0 : list Z)
    (m : unordered_map) (g : model) :
  Forall (λ c, Vertex_eq c c = true) cs ->
  Z.of_nat (length vs0) + Z.of_nat (length (vertices g))
    + Z.of_nat (length cs) <= 2 ^ 32 ->
  push_all cs
    (shift_table (length vs0) m,
     {| vertices := vs0 ++ vertices g;
        indices := is0 ++ map (shift_index (length vs0)) (indices g) |})
  = (shift_table (length vs0) (fst (push_all cs (m, g))),
     {| vertices := vs0 ++ vertices (snd (push_all cs (m, g)));
        indices := is0 ++ map (shift_index (length vs0))
                              (indices (snd (push_all cs (m, g)))) |}).
Proof.
  revert m g. induction cs as [| c cs IH]; intros m g Hcs Hlen; [done |].
  apply Forall_cons in Hcs as [Hc Hcs]. cbn [length] in Hlen.
  rewrite !push_all_cons, push_vertex_shift by (done || lia).
  pose proof (push_vertex_grows m g c) as Hg.
  destruct (push_vertex (m, g) c) as [m' g']. cbn [fst snd] in *.
  apply IH; [done | lia].
Qed.

(** Loaded behind the lists of an earlier load, a mesh without NaN brings its
    own vertices and its own indices, each index moved by the number of
    vertices already there: the lists of two loads, one after the other, are
    a mesh again, made of both. *)
Theorem loadModel_stacks (attrib : tinyobj.attrib_t)
    (shapes : list tinyobj.shape_t) (g : model) :
  mesh_in_range attrib shapes = true ->
  mesh_nan_free attrib = true ->
  Z.of_nat (length (vertices g)) + Z.of_nat (length (corners shapes)) <= 2 ^ 32 ->
  exists e,
    loadModel attrib shapes empty_model = Some e
    /\ loadModel attrib shapes g
       = Some {| vertices := vertices g ++ vertices e;
                 indices := indices g
                            ++ map (shift_index (length (vertices g))) (indices e) |}.
Proof.
  intros Hr Hn Hlen. destruct (loadModel_from_empty attrib shapes Hr)
    as (cs & Hc & Hcs & Hg & _).
  eexists. split; [exact Hg |].
  rewrite loadModel_push_all, Hc. cbn [fmap option_fmap option_map]. f_equal.
  destruct g as [vs is']. cbn [vertices indices] in *.
  transitivity
    (snd (push_all cs
            (shift_table (length vs) [],
             {| vertices := vs ++ vertices empty_model;
                indices := is' ++ map (shift_index (length vs))
                                      (indices empty_model) |}))).
  { cbn [shift_table map vertices indices empty_model].
    by rewrite !app_nil_r. }
  rewrite push_all_shift; [done | by eapply nan_free_candidates | simpl; lia].
Qed.

Lemma loadModel_stacks_triangle_fan :
  exists e,
    loadModel fan_attrib fan_shapes empty_model = Some e
    /\ loadModel fan_attrib fan_shapes triangle_model
       = Some {| vertices := vertices triangle_model ++ vertices e;
                 indices := indices triangle_model
                            ++ map (shift_index (length (vertices triangle_model)))
                                   (indices e) |}.
Proof.
  apply (loadModel_stacks fan_attrib fan_shapes triangle_model).
  - vm_compute. reflexivity.
  - vm_compute. reflexivity.
  - vm_compute. discriminate.
Defined.

(** The fan behind the triangle: nine vertices, the fan's indices from 3 on. *)
Example loadModel_triangle_then_fan :
  (λ g, (length (vertices g), indices g))
    <$> loadModel fan_attrib fan_shapes triangle_model
  = Some (9%nat, [0; 1; 2; 3; 4; 5; 3; 5; 6; 3; 7; 8]).
Proof. vm_compute. reflexivity. Qed.

(** ** Every vertex is used *)

Lemma push_all_uses_all (cs : list Vertex) (m : unordered_map) (g : model) :
  Forall (λ c, Vertex_eq c c = true) cs ->
  Z.of_nat (length (vertices g)) + Z.of_nat (length cs) <= 2 ^ 32 ->
  (forall j, (j < length (vertices g))%nat -> In (Z.of_nat j) (indices g)) ->
  forall j, (j < length (vertices (snd (push_all cs (m, g)))))%nat ->
            In (Z.of_nat j) (indices (snd (push_all cs (m, g)))).
Proof.
  revert m g. induction cs as [| c cs IH]; intros m g Hcs Hlen Hall; [done |].
  apply Forall_cons in Hcs as [Hc Hcs]. cbn [length] in Hlen.
  rewrite push_all_cons.
  destruct (known (map fst m) c) eqn:Hk.
  - destruct (push_vertex_known m g c Hk) as (e & _ & _ & ->).
    apply IH; [done | simpl; lia |]. simpl. intros j Hj.
    apply in_or_app. left. by apply Hall.
  - rewrite (push_vertex_new m g c Hk Hc).
    apply IH; [done | simpl; rewrite length_app; simpl; lia |].
    cbn [vertices indices]. intros j. rewrite length_app. simpl. intros Hj.
    apply in_or_app.
    destruct (decide (j = length (vertices g))) as [-> | Hne].
    + right. rewrite to_uint32_small by lia. by left.
    + left. apply Hall. lia.
Qed.

(** In the lists loaded from a mesh without NaN, every slot of the vertex
    list is named by some index: no vertex is stored that no face uses. *)
Theorem loadModel_uses_every_vertex (attrib : tinyobj.attrib_t)
    (shapes : list tinyobj.shape_t) :
  mesh_in_range attrib shapes = true ->
  mesh_nan_free attrib = true ->
  Z.of_nat (length (corners shapes)) <= 2 ^ 32 ->
  exists g, loadModel attrib shapes empty_model = Some g
            /\ forall j, (j < length (vertices g))%nat ->
                         In (Z.of_nat j) (indices g).
Proof.
  intros Hr Hn Hlen. destruct (loadModel_from_empty attrib shapes Hr)
    as (cs & Hc & Hcs & Hg & _).
  eexists. split; [exact Hg |].
  apply push_all_uses_all;
    [by eapply nan_free_candidates | simpl; lia | simpl; lia].
Qed.

Lemma loadModel_uses_every_vertex_fan :
  exists g, loadModel fan_attrib fan_shapes empty_model = Some g
            /\ forall j, (j < length (vertices g))%nat ->
                         In (Z.of_nat j) (indices g).
Proof.
  apply (loadModel_uses_every_vertex fan_attrib fan_shapes).
  - vm_compute. reflexivity.
  - vm_compute. reflexivity.
  - vm_compute. discriminate.
Defined.

(** With a NaN the loader does store a vertex that no index names: the
    second slot below. *)
Example loadModel_orphan_vertex :
  (λ g, (length (vertices g), indices g))
    <$> loadModel nan_attrib nan_shapes empty_model
  = Some (2%nat, [0; 0]).
Proof. vm_compute. reflexivity. Qed.

(** ** The hash of a vertex agrees with its equality *)

Section HashVertex.

Context (hash_float : float -> Z).
Hypothesis hash_float_eq :
  forall a b : float, feq a b = true -> hash_float a = hash_float b.

Lemma hash_vec2_eq (a b : vec2 float) :
  vec2_eq a b = true -> hash_vec2 hash_float a = hash_vec2 hash_float b.
Proof using hash_float_eq.
  unfold vec2_eq, hash_vec2. intros H. bool_split.
  by rewrite (hash_float_eq (vec2_x a) (vec2_x b)),
    (hash_float_eq (vec2_y a) (vec2_y b)).
Qed.

Lemma hash_vec3_of_vec4_eq (a b : vec4 float) :
  vec4_eq a b = true ->
  hash_vec3 hash_float (vec3_of_vec4 a) = hash_vec3 hash_float (vec3_of_vec4 b).
Proof using hash_float_eq.
  unfold vec4_eq, hash_vec3, vec3_of_vec4. simpl. intros H. bool_split.
  by rewrite (hash_float_eq (vec4_x a) (vec4_x b)),
    (hash_float_eq (vec4_y a) (vec4_y b)), (hash_float_eq (vec4_z a) (vec4_z b)).
Qed.

(** When [std::hash<float>] gives equal hashes to floats that compare equal,
    [std::hash<Vertex>] gives equal hashes to vertices that compare equal: a
    vertex is looked for in the bucket in which an equal key was put. *)
Theorem hash_Vertex_respects_eq (a b : Vertex) :
  Vertex_eq a b = true ->
  hash_Vertex hash_float a = hash_Vertex hash_float b.
Proof using hash_float_eq.
  unfold Vertex_eq, hash_Vertex. intros H. bool_split.
  by rewrite (hash_vec3_of_vec4_eq (position a) (position b)),
    (hash_vec3_of_vec4_eq (color a) (color b)),
    (hash_vec2_eq (texcoord a) (texcoord b)).
Qed.

End HashVertex.

Lemma sample_hash_float_eq (a b : float) :
  feq a b = true -> sample_hash_float a = sample_hash_float b.
Proof.
  rewrite feq_spec. destruct a, b; try done.
  - by intros ->.
  - by intros (-> & -> & ->).
Qed.

(** The vertices at (0, 0, 0) and at (-0, 0, 0) compare equal and hash
    alike. *)
Lemma hash_Vertex_respects_eq_zero :
  hash_Vertex sample_hash_float
    (vertex_of (mk_vec3 (S754_zero false) (S754_zero false) (S754_zero false),
                mk_vec2 (float_of_Z 1) (float_of_Z 0)))
  = hash_Vertex sample_hash_float
      (vertex_of (mk_vec3 (S754_zero true) (S754_zero false) (S754_zero false),
                  mk_vec2 (float_of_Z 1) (float_of_Z 0))).
Proof.
  apply (hash_Vertex_respects_eq sample_hash_float sample_hash_float_eq).
  vm_compute. reflexivity.
Defined.

(** ** What the events do to the close flag and to the cursor mode *)

Lemma dispatch_should_close (st : state) (e : event) :
  should_close (window (dispatch st e))
  = should_close (window st) || is_escape_press e.
Proof.
  destruct e as [key sc action mods | button action mods | x y | x y]; simpl.
  - unfold key_callback. destruct (_ && _); simpl;
      [by rewrite orb_true_r | by rewrite orb_false_r].
  - rewrite orb_false_r. unfold mouse_button_callback.
    destruct (negb _); [done |]. destruct (action =? GLFW_PRESS); [| done].
    unfold glfwGetCursorPos. simpl. by destruct (cursor_pos (window st)).
  - rewrite orb_false_r. unfold cursor_position_callback. simpl.
    by destruct (_ =? _).
  - by rewrite orb_false_r.
Qed.

(** After the events of a poll the close flag is set exactly when it was set
    before or one of the events is a press of Escape: no event clears it,
    and no other key, button, motion or scroll sets it. *)
Theorem close_flag_after_poll (st : state) (events : list event) :
  should_close (window (glfwPollEvents st events))
  = should_close (window st) || existsb is_escape_press events.
Proof.
  revert st. induction events as [| e events IH]; intros st.
  - simpl. by rewrite orb_false_r.
  - change (glfwPollEvents st (e :: events))
      with (glfwPollEvents (dispatch st e) events).
    rewrite IH, dispatch_should_close. cbn [existsb]. by rewrite orb_assoc.
Qed.

Lemma dispatch_cursor_mode (st : state) (e : event) :
  cursor_mode (window (dispatch st e))
  = match last_left_action [e] with
    | Some action => mode_after action
    | None => cursor_mode (window st)
    end.
Proof.
  destruct e as [key sc action mods | button action mods | x y | x y]; simpl.
  - unfold key_callback. by destruct (_ && _).
  - unfold mouse_button_callback, mode_after.
    destruct (button =? GLFW_MOUSE_BUTTON_LEFT); simpl; [| done].
    destruct (action =? GLFW_PRESS); [| done].
    unfold glfwGetCursorPos. simpl. by destruct (cursor_pos (window st)).
  - unfold cursor_position_callback. simpl. by destruct (_ =? _).
  - done.
Qed.

(** The cursor is captured after a poll exactly when the last event of the
    left button in it is a press, or, without such an event, when it was
    captured before: other buttons, keys, motion and scrolling leave the
    mode alone. *)
Theorem cursor_mode_after_poll (st : state) (events : list event) :
  cursor_mode (window (glfwPollEvents st events))
  = match last_left_action events with
    | Some action => mode_after action
    | None => cursor_mode (window st)
    end.
Proof.
  revert st. induction events as [| e events IH]; intros st; [done |].
  change (glfwPollEvents st (e :: events))
    with (glfwPollEvents (dispatch st e) events).
  rewrite IH, dispatch_cursor_mode. cbn [last_left_action].
  by destruct (last_left_action events).
Qed.

(** ** Which events reach which part of the camera state *)

Lemma dispatch_zoom (st st' : state) (e : event) :
  zoom st = zoom st' ->
  zoom (dispatch st e)
  = zoom (if is_scroll e then dispatch st' e else st').
Proof.
  intros Hz. destruct e as [key sc action mods | button action mods | x y | x y];
    simpl.
  - unfold key_callback. by destruct (_ && _).
  - unfold mouse_button_callback. destruct (negb _); [done |].
    destruct (action =? GLFW_PRESS); [| done].
    unfold glfwGetCursorPos. simpl. by destruct (cursor_pos (window st)).
  - unfold cursor_position_callback. simpl. by destruct (_ =? _).
  - by rewrite Hz.
Qed.

Lemma poll_zoom (events : list event) (st st' : state) :
  zoom st = zoom st' ->
  zoom (glfwPollEvents st events)
  = zoom (glfwPollEvents st' (List.filter is_scroll events)).
Proof.
  revert st st'. induction events as [| e events IH]; intros st st' Hz; [done |].
  change (glfwPollEvents st (e :: events))
    with (glfwPollEvents (dispatch st e) events).
  pose proof (dispatch_zoom st st' e Hz) as Hd. cbn [List.filter].
  destruct (is_scroll e); by apply IH.
Qed.

Lemma same_pointer_state_refl (st : state) : same_pointer_state st st.
Proof. by repeat split. Qed.

Lemma dispatch_pointer (st st' : state) (e : event) :
  same_pointer_state st st' ->
  same_pointer_state (dispatch st e)
                     (if is_pointer e then dispatch st' e else st').
Proof.
  intros (Hr & Hx & Hy & Hm & Hp).
  destruct e as [key sc action mods | button action mods | x y | x y];
    cbn [is_pointer dispatch].
  - unfold key_callback. destruct (_ && _); by repeat split.
  - unfold mouse_button_callback. destruct (negb _); [by repeat split |].
    destruct (action =? GLFW_PRESS).
    + unfold glfwGetCursorPos, glfwSetInputMode. simpl. rewrite Hp.
      destruct (cursor_pos (window st')). by repeat split.
    + by repeat split.
  - unfold cursor_position_callback, glfwGetInputMode. simpl. rewrite Hm.
    destruct (_ =? _); unfold same_pointer_state; simpl;
      rewrite ?Hr, ?Hx, ?Hy; by repeat split.
  - by repeat split.
Qed.

Lemma poll_pointer (events : list event) (st st' : state) :
  same_pointer_state st st' ->
  same_pointer_state (glfwPollEvents st events)
                     (glfwPollEvents st' (List.filter is_pointer events)).
Proof.
  revert st st'. induction events as [| e events IH]; intros st st' Hs; [done |].
  change (glfwPollEvents st (e :: events))
    with (glfwPollEvents (dispatch st e) events).
  pose proof (dispatch_pointer st st' e Hs) as Hd. cbn [List.filter].
  destruct (is_pointer e); by apply IH.
Qed.

(** The zoom after a poll is that of its scroll events alone, and the
    rotation that of its button and cursor events alone: keys never move the
    camera, scrolling never turns it, and the pointer never zooms. *)
Theorem camera_state_by_event_kind (st : state) (events : list event) :
  zoom (glfwPollEvents st events)
  = zoom (glfwPollEvents st (List.filter is_scroll events))
  /\ rotation (glfwPollEvents st events)
     = rotation (glfwPollEvents st (List.filter is_pointer events)).
Proof.
  split; [by apply poll_zoom |].
  apply (poll_pointer events st st (same_pointer_state_refl st)).
Qed.

(** ** The reference point follows the cursor *)

Lemma dispatch_reference (st : state) (e : event) :
  reference_tracks_cursor st -> reference_tracks_cursor (dispatch st e).
Proof.
  unfold reference_tracks_cursor, drag_active. intros Hst.
  destruct e as [key sc action mods | button action mods | x y | x y];
    cbn [dispatch].
  - unfold key_callback. by destruct (_ && _).
  - unfold mouse_button_callback. destruct (negb _); [done |].
    destruct (action =? GLFW_PRESS).
    + unfold glfwGetCursorPos, glfwSetInputMode. simpl.
      by destruct (cursor_pos (window st)).
    + simpl. discriminate.
  - unfold cursor_position_callback, glfwGetInputMode. simpl.
    by destruct (cursor_mode (window st) =? GLFW_CURSOR_DISABLED) eqn:E; simpl;
      [| rewrite E].
  - done.
Qed.

(** Whenever the cursor is captured, the reference point [(cursorX, cursorY)]
    is the position the window last reported; the events of a poll keep it
    so.  Each cursor event of a drag is therefore measured from the position
    of the event before it, or from the press. *)
Theorem reference_point_tracks_cursor (st : state) (events : list event) :
  reference_tracks_cursor st ->
  reference_tracks_cursor (glfwPollEvents st events).
Proof.
  revert st. induction events as [| e events IH]; intros st Hst; [done |].
  apply IH. by apply dispatch_reference.
Qed.

Lemma reference_point_tracks_cursor_sample :
  reference_tracks_cursor
    (glfwPollEvents (initial_state sample_window)
       [ MouseButtonEvent GLFW_MOUSE_BUTTON_LEFT GLFW_PRESS 0;
         ScrollEvent (double_of_Z 0) (double_of_Z 1);
         CursorPosEvent (double_of_Z 110) (double_of_Z 50) ]).
Proof.
  apply (reference_point_tracks_cursor (initial_state sample_window)).
  intros H. vm_compute in H. discriminate H.
Defined.

(** ** The shader builder on every driver *)

Lemma createShaderProgram_cases (NDEBUG : bool) (d : driver) :
  let '(handles, s, s') := build_then_shutdown NDEBUG d in
  shader_objects s = ∅
  /\ count_calls (is_DeleteShader 1) s
     = (if vertex_check_fires NDEBUG d then 2 else 1)%nat
  /\ count_calls (is_DeleteShader 2) s
     = (if fragment_check_fires NDEBUG d then 2 else 1)%nat
  /\ program_alive s (fst handles) = negb (link_check_fires NDEBUG d)
  /\ count_calls (is_DeleteProgram (fst handles)) s'
     = (if link_check_fires NDEBUG d then 2 else 1)%nat
  /\ program_alive s' (fst handles) = false
  /\ error_free s
     = negb (vertex_check_fires NDEBUG d) && negb (fragment_check_fires NDEBUG d)
       && negb (link_check_fires NDEBUG d) && linked d
  /\ pipeline_objects s !! snd handles
     = Some (if negb (link_check_fires NDEBUG d) && linked d
             then fst handles else 0).
Proof.
  destruct d as [cr [sl ll]].
  unfold build_then_shutdown, createShaderProgram, createShader,
    vertex_check_fires, fragment_check_fires, link_check_fires, linked.
  cbn [compile_result link_result fst snd].
  destruct (cr GL_VERTEX_SHADER) as [s1 l1], (cr GL_FRAGMENT_SHADER) as [s2 l2].
  cbn [fst snd].
  destruct NDEBUG;
    (destruct l1 as [| ? | ?]; [| destruct s1 as [| ? | ?] |]);
    (destruct l2 as [| ? | ?]; [| destruct s2 as [| ? | ?] |]);
    destruct ll as [| ? | ?], sl as [| ? | ?];
    vm_compute; repeat split; reflexivity.
Qed.

(** Whatever the driver answers and in either build configuration, no shader
    object is left when the builder returns; [glDeleteShader] is asked for a
    shader once, and once more exactly when the check after its compilation
    ran its branch. *)
Theorem createShaderProgram_shader_deletions (NDEBUG : bool) (d : driver) :
  let '(handles, s, s') := build_then_shutdown NDEBUG d in
  shader_objects s = ∅
  /\ count_calls (is_DeleteShader 1) s
     = (if vertex_check_fires NDEBUG d then 2 else 1)%nat
  /\ count_calls (is_DeleteShader 2) s
     = (if fragment_check_fires NDEBUG d then 2 else 1)%nat.
Proof.
  pose proof (createShaderProgram_cases NDEBUG d) as H.
  destruct (build_then_shutdown NDEBUG d) as [[handles s] s']. tauto.
Qed.

(** The program handle returned names a program object exactly when the
    check after linking did not run its branch; shutdown leaves no program
    in either case, asking for its deletion a second time in the other. *)
Theorem createShaderProgram_program_alive (NDEBUG : bool) (d : driver) :
  let '(handles, s, s') := build_then_shutdown NDEBUG d in
  program_alive s (fst handles) = negb (link_check_fires NDEBUG d)
  /\ count_calls (is_DeleteProgram (fst handles)) s'
     = (if link_check_fires NDEBUG d then 2 else 1)%nat
  /\ program_alive s' (fst handles) = false.
Proof.
  pose proof (createShaderProgram_cases NDEBUG d) as H.
  destruct (build_then_shutdown NDEBUG d) as [[handles s] s']. tauto.
Qed.

(** The build raises no OpenGL error exactly when none of the three checks
    runs its branch and the program links; the pipeline gets the program for
    its stages exactly when the program links and the check after linking
    leaves it alone, and stays empty otherwise. *)
Theorem createShaderProgram_error_free (NDEBUG : bool) (d : driver) :
  let '(handles, s, s') := build_then_shutdown NDEBUG d in
  error_free s
  = negb (vertex_check_fires NDEBUG d) && negb (fragment_check_fires NDEBUG d)
    && negb (link_check_fires NDEBUG d) && linked d
  /\ pipeline_objects s !! snd handles
     = Some (if negb (link_check_fires NDEBUG d) && linked d
             then fst handles else 0).
Proof.
  pose proof (createShaderProgram_cases NDEBUG d) as H.
  destruct (build_then_shutdown NDEBUG d) as [[handles s] s']. tauto.
Qed.

(** ** What the texture upload reads *)

Lemma loadTexture_upload (textureId : Z) (filename : string) (comp : Z)
    (image : stbi_image) :
  List.filter is_upload (fst (loadTexture textureId filename comp image))
  = match image_data image with
    | Some pixels =>
        [ TextureSubImage2D textureId 0 0 0 (image_w image) (image_h image)
            (snd (loadTexture_format comp)) GL_UNSIGNED_BYTE pixels ]
    | None => []
    end.
Proof.
  unfold loadTexture. destruct (loadTexture_format comp) as [in_ ex].
  unfold createTexture2D. simpl. by destruct (image_data image).
Qed.

Lemma format_components_table (comp : Z) :
  1 <= comp <= 4 -> format_components (snd (loadTexture_format comp)) = comp.
Proof.
  intros H. assert (comp = 1 \/ comp = 2 \/ comp = 3 \/ comp = 4) as Hc by lia.
  by destruct Hc as [-> | [-> | [-> | ->]]].
Qed.

Lemma unpack_bytes_ge (n w h : Z) :
  0 < n -> 0 < w -> 0 < h -> w * h * n <= unpack_bytes n w h.
Proof.
  intros Hn Hw Hh. unfold unpack_bytes, unpack_row_stride.
  destruct (Z.leb_spec w 0) as [? | _], (Z.leb_spec h 0) as [? | _]; try lia.
  simpl.
  pose proof (Z.div_mod (n * w + 3) 4 ltac:(lia)) as Hd.
  pose proof (Z.mod_pos_bound (n * w + 3) 4 ltac:(lia)) as Hm. nia.
Qed.

Lemma unpack_bytes_exact (n w h : Z) :
  0 < n -> 0 < w -> 0 < h ->
  (unpack_bytes n w h = w * h * n <-> (n * w) mod 4 = 0 \/ h = 1).
Proof.
  intros Hn Hw Hh. unfold unpack_bytes, unpack_row_stride.
  destruct (Z.leb_spec w 0) as [? | _], (Z.leb_spec h 0) as [? | _]; try lia.
  simpl.
  pose proof (Z.div_mod (n * w) 4 ltac:(lia)) as Hd.
  pose proof (Z.mod_pos_bound (n * w) 4 ltac:(lia)) as Hm.
  destruct (decide ((n * w) mod 4 = 0)) as [Hr | Hr].
  - replace ((n * w + 3) / 4) with (n * w / 4)
      by (apply (Z.div_unique (n * w + 3) 4 (n * w / 4) 3); lia).
    split; [auto |]. intros _. nia.
  - replace ((n * w + 3) / 4) with (n * w / 4 + 1)
      by (apply (Z.div_unique (n * w + 3) 4 (n * w / 4 + 1)
                   ((n * w) mod 4 - 1)); lia).
    split; [intros Heq; right; nia | intros [? | ->]; [done | lia]].
Qed.

(** For an image decoded with one to four channels asked for, the upload
    takes from the decode buffer at least the bytes it holds, and exactly
    those when a row is a multiple of four bytes long or the image has one
    row; with four channels, the default, always.  With fewer channels and
    rows of another length OpenGL reads past the end of the buffer. *)
Theorem loadTexture_upload_size (textureId : Z) (filename : string) (comp : Z)
    (image : stbi_image) (pixels : list Z) :
  1 <= comp <= 4 ->
  well_decoded comp image pixels ->
  exists c,
    List.filter is_upload (fst (loadTexture textureId filename comp image)) = [c]
    /\ Z.of_nat (length pixels) <= upload_bytes c
    /\ (upload_bytes c = Z.of_nat (length pixels)
        <-> (comp * image_w image) mod 4 = 0 \/ image_h image = 1)
    /\ (comp = 4 -> upload_bytes c = Z.of_nat (length pixels)).
Proof.
  intros Hc (Hd & Hw & Hh & _ & Hl).
  unfold decoded_channels, STBI_default in Hl.
  destruct (Z.eqb_spec comp 0) as [-> | _]; [lia |].
  eexists. split; [by rewrite loadTexture_upload, Hd |].
  cbn [upload_bytes]. rewrite (format_components_table comp Hc), Hl.
  pose proof (unpack_bytes_exact comp (image_w image) (image_h image)
                ltac:(lia) Hw Hh) as He.
  split; [apply unpack_bytes_ge; lia |]. split; [exact He |].
  intros ->. apply He. left. by rewrite Z.mul_comm, Z_mod_mult.
Qed.

Lemma loadTexture_upload_size_sample :
  exists c,
    List.filter is_upload
      (fst (loadTexture 9 "model/rabbit.jpg" 4 (sample_image 3 2 3 4))) = [c]
    /\ Z.of_nat (length (repeat 255 24%nat)) <= upload_bytes c
    /\ (upload_bytes c = Z.of_nat (length (repeat 255 24%nat))
        <-> (4 * image_w (sample_image 3 2 3 4)) mod 4 = 0
            \/ image_h (sample_image 3 2 3 4) = 1)
    /\ (4 = 4 -> upload_bytes c = Z.of_nat (length (repeat 255 24%nat))).
Proof.
  apply (loadTexture_upload_size 9 "model/rabbit.jpg" 4 (sample_image 3 2 3 4)
           (repeat 255 24%nat)).
  - lia.
  - repeat split; vm_compute; congruence.
Defined.

(** An image of 3 by 2 pixels decoded with three channels holds 18 bytes; the
    upload takes 21. *)
Example loadTexture_rgb_reads_past :
  upload_bytes
    <$> head (List.filter is_upload
                (fst (loadTexture 9 "model/rabbit.jpg" 3 (sample_image 3 2 3 3))))
  = Some 21
  /\ length <$> image_data (sample_image 3 2 3 3) = Some 18%nat.
Proof. vm_compute. done. Qed.

(** Asked for [STBI_default], [loadTexture] uploads in the format of four
    channels while [stbi_load] keeps the channels of the file: of an image
    whose file has fewer than four channels OpenGL reads more bytes than the
    decode buffer holds. *)
Theorem loadTexture_default_reads_past (textureId : Z) (filename : string)
    (image : stbi_image) (pixels : list Z) :
  well_decoded STBI_default image pixels ->
  image_c image < 4 ->
  exists c,
    List.filter is_upload
      (fst (loadTexture textureId filename STBI_default image)) = [c]
    /\ Z.of_nat (length pixels) < upload_bytes c.
Proof.
  intros (Hd & Hw & Hh & Hc & Hl) Hlt.
  unfold decoded_channels, STBI_default in Hl. simpl in Hl.
  eexists. split; [by rewrite loadTexture_upload, Hd |].
  cbn [upload_bytes]. change (format_components _) with 4. rewrite Hl.
  pose proof (unpack_bytes_ge 4 (image_w image) (image_h image)
                ltac:(lia) Hw Hh). nia.
Qed.

Lemma loadTexture_default_reads_past_sample :
  exists c,
    List.filter is_upload
      (fst (loadTexture 9 "model/rabbit.jpg" STBI_default (sample_image 3 2 3 0)))
    = [c]
    /\ Z.of_nat (length (repeat 255 18%nat)) < upload_bytes c.
Proof.
  apply (loadTexture_default_reads_past 9 "model/rabbit.jpg"
           (sample_image 3 2 3 0) (repeat 255 18%nat)).
  - repeat split; vm_compute; congruence.
  - vm_compute. reflexivity.
Defined.

(** ** The loop of [main] *)

Lemma fold_dispatch_should_close (events : list event) (st : state) :
  should_close (window (fold_left dispatch events st))
  = should_close (window st) || existsb is_escape_press events.
Proof.
  revert st. induction events as [| e events IH]; intros st; simpl.
  - by rewrite orb_false_r.
  - by rewrite IH, dispatch_should_close, orb_assoc.
Qed.

Lemma tick_calls (t : timing) (now : double) :
  snd (tick t now) = []
  \/ snd (tick t now) = [title_of (to_uint32 (fps t + 1))].
Proof. unfold tick. destruct (fge _ _); [by right | by left]. Qed.

Lemma main_loop_closed (m : libm) (r : resources) (g : model)
    (frames : list (double * list event * bool)) (s : state * timing) :
  should_close (window (fst s)) = true ->
  main_loop m r g frames s = (Some s, []).
Proof. intros H. destruct frames; simpl; by rewrite H. Qed.

Lemma main_loop_step (m : libm) (r : resources) (g : model)
    (now : double) (events : list event) (close : bool)
    (frames : list (double * list event * bool)) (st : state) (t : timing) :
  should_close (window st) = false ->
  main_loop m r g ((now, events, close) :: frames) (st, t)
  = (fst (main_loop m r g frames
            (request_close close (glfwPollEvents st events), fst (tick t now))),
     snd (tick t now) ++ render m r g st ++ [PollEvents]
     ++ snd (main_loop m r g frames
               (request_close close (glfwPollEvents st events),
                fst (tick t now)))).
Proof.
  intros H. cbn [main_loop fst]. rewrite H. unfold frame.
  destruct (tick t now) as [t' title]. cbn [fst snd].
  destruct (main_loop _ _ _ _ _) as [final calls']. cbn [fst snd].
  by rewrite <- !app_assoc.
Qed.

Lemma request_close_flag (close : bool) (st : state) :
  should_close (window (request_close close st))
  = should_close (window st) || close.
Proof. destruct close; simpl; [by rewrite orb_true_r | by rewrite orb_false_r]. Qed.

Lemma pass_closes (now : double) (events : list event) (close : bool)
    (st : state) :
  should_close (window st) = false ->
  should_close (window (request_close close (glfwPollEvents st events)))
  = closing (now, events, close).
Proof.
  intros H. unfold glfwPollEvents, closing.
  by rewrite request_close_flag, fold_dispatch_should_close, H.
Qed.

Lemma filter_draw_pass (m : libm) (r : resources) (g : model) (st : state)
    (t : timing) (now : double) (rest : list frame_call) :
  List.filter is_draw (snd (tick t now) ++ render m r g st ++ [PollEvents] ++ rest)
  = DrawElementsInstanced GL_TRIANGLES
      (to_int32 (Z.of_nat (length (indices g)))) GL_UNSIGNED_INT 0 1
    :: List.filter is_draw rest.
Proof.
  rewrite List.filter_app.
  by destruct (tick_calls t now) as [-> | ->].
Qed.

(** The loop draws once in each pass up to and including the first whose
    events hold a press of Escape or a request to close the window, and in
    no later one; when the close flag is set on entry it draws nothing. *)
Theorem main_loop_passes (m : libm) (r : resources) (g : model)
    (frames : list (double * list event * bool)) (st : state) (t : timing) :
  length (List.filter is_draw (snd (main_loop m r g frames (st, t))))
  = default (length frames) (passes_from (window st) frames).
Proof.
  revert st t. induction frames as [| [[now events] close] frames IH];
    intros st t; unfold passes_from.
  - simpl. by destruct (should_close (window st)).
  - destruct (should_close (window st)) eqn:Hc.
    + by rewrite main_loop_closed.
    + rewrite main_loop_step by done. cbn [snd].
      rewrite filter_draw_pass. cbn [length]. rewrite IH.
      unfold passes_from. rewrite (pass_closes now) by done.
      cbn [passes_until_close].
      destruct (closing (now, events, close)); [done |].
      by destruct (passes_until_close frames).
Qed.

Lemma main_loop_final (m : libm) (r : resources) (g : model)
    (frames : list (double * list event * bool)) (st : state) (t : timing) :
  is_Some (fst (main_loop m r g frames (st, t)))
  <-> is_Some (passes_from (window st) frames).
Proof.
  revert st t. induction frames as [| [[now events] close] frames IH];
    intros st t; unfold passes_from.
  - simpl. destruct (should_close (window st)); simpl; [split; eauto | done].
  - destruct (should_close (window st)) eqn:Hc.
    + rewrite main_loop_closed by done. simpl. split; eauto.
    + rewrite main_loop_step by done. cbn [fst]. rewrite IH.
      unfold passes_from. rewrite (pass_closes now) by done.
      cbn [passes_until_close].
      destruct (closing (now, events, close)); [split; eauto |].
      by rewrite fmap_is_Some.
Qed.

(** ** The zoom the renderer sees *)

Lemma dispatch_zoom_not_negative (st : state) (e : event) :
  flt (zoom st) (float_of_Z 0) = false ->
  flt (zoom (dispatch st e)) (float_of_Z 0) = false.
Proof.
  intros H.
  destruct e as [key sc action mods | button action mods | x y | x y];
    cbn [dispatch].
  - unfold key_callback. by destruct (_ && _).
  - unfold mouse_button_callback.
    destruct (negb _); [done |]. destruct (action =? GLFW_PRESS); [| done].
    unfold glfwGetCursorPos. simpl. by destruct (cursor_pos (window st)).
  - unfold cursor_position_callback. simpl. by destruct (_ =? _).
  - unfold scroll_callback. cbn [zoom].
    destruct (flt (fadd _ _) _) eqn:Hz; [vm_compute; reflexivity | exact Hz].
Qed.

Lemma poll_zoom_not_negative (events : list event) (st : state) :
  flt (zoom st) (float_of_Z 0) = false ->
  flt (zoom (glfwPollEvents st events)) (float_of_Z 0) = false.
Proof.
  revert st. induction events as [| e events IH]; intros st H; [done |].
  apply IH. by apply dispatch_zoom_not_negative.
Qed.

(** When the zoom is not negative on entry, every matrix the loop stores in
    the uniform buffer is [camera] of a zoom that is not negative, whatever
    the events scroll. *)
Theorem main_loop_zoom_not_negative (m : libm) (r : resources) (g : model)
    (frames : list (double * list event * bool)) (st : state) (t : timing) :
  flt (zoom st) (float_of_Z 0) = false ->
  Forall (λ c, forall MVP, c = StoreMVP MVP ->
               exists z rot, MVP = camera (H := float_scalar m) z rot
                             /\ flt z (float_of_Z 0) = false)
         (snd (main_loop m r g frames (st, t))).
Proof.
  revert st t. induction frames as [| [[now events] close] frames IH];
    intros st t Hz.
  - simpl. destruct (should_close (window st)); constructor.
  - destruct (should_close (window st)) eqn:Hc.
    + rewrite main_loop_closed by done. constructor.
    + rewrite main_loop_step by done. cbn [snd].
      rewrite !Forall_app. split; [| split; [| split]].
      * destruct (tick_calls t now) as [-> | ->]; [constructor |].
        by repeat constructor.
      * unfold render. repeat constructor; try done.
        intros MVP [= <-]. eauto.
      * by repeat constructor.
      * apply IH. destruct close; [cbn [request_close zoom] |];
          by apply poll_zoom_not_negative.
Qed.

Lemma main_loop_zoom_not_negative_sample :
  Forall (λ c, forall MVP, c = StoreMVP MVP ->
               exists z rot, MVP = camera (H := float_scalar sample_libm) z rot
                             /\ flt z (float_of_Z 0) = false)
         (snd (main_loop sample_libm (mk_resources 4 1 1 1 2 3 256) triangle_model
                 (env_frames sample_environment)
                 (initial_state sample_window,
                  mk_timing (float_of_Z 0) (float_of_Z 0) (float_of_Z 0)
                            (float_of_Z 0) 0))).
Proof.
  apply (main_loop_zoom_not_negative sample_libm (mk_resources 4 1 1 1 2 3 256)
           triangle_model (env_frames sample_environment)
           (initial_state sample_window)).
  vm_compute. reflexivity.
Defined.

(** ** The frame counter *)

Lemma filter_title_pass (m : libm) (r : resources) (g : model) (st : state)
    (t : timing) (now : double) (rest : list frame_call) :
  List.filter is_title (snd (tick t now) ++ render m r g st ++ [PollEvents] ++ rest)
  = snd (tick t now) ++ List.filter is_title rest.
Proof.
  rewrite List.filter_app.
  by destruct (tick_calls t now) as [-> | ->].
Qed.

Lemma tick_fps (t : timing) (now : double) :
  0 <= fps t < 2 ^ 32 - 1 ->
  (snd (tick t now) = [] /\ fps (fst (tick t now)) = fps t + 1)
  \/ (snd (tick t now) = [title_of (fps t + 1)] /\ fps (fst (tick t now)) = 0).
Proof.
  intros H. unfold tick.
  replace (to_uint32 (fps t + 1)) with (fps t + 1)
    by (unfold to_uint32; rewrite Z.mod_small; lia).
  destruct (fge _ _); [right | left]; by split.
Qed.

(** The frame counter loses no frame: when the loop ends, the counts the
    window title has shown, each at least one, and the count not yet shown
    add up to the count on entry plus the frames drawn (as long as that
    stays below 2^32, where the counter wraps). *)
Theorem main_loop_counts_frames (m : libm) (r : resources) (g : model)
    (frames : list (double * list event * bool)) (st : state) (t : timing)
    (final : state * timing) :
  fst (main_loop m r g frames (st, t)) = Some final ->
  0 <= fps t ->
  fps t + Z.of_nat (length frames) < 2 ^ 32 ->
  let calls := snd (main_loop m r g frames (st, t)) in
  exists shown,
    List.filter is_title calls = map title_of shown
    /\ Forall (λ n, 0 < n) shown
    /\ sum_Z shown + fps (snd final)
       = fps t + Z.of_nat (length (List.filter is_draw calls)).
Proof.
  revert st t. induction frames as [| [[now events] close] frames IH];
    intros st t Hf H0 Hb; cbn zeta.
  - simpl in *. destruct (should_close (window st)); [| done].
    injection Hf as <-. exists []. simpl. repeat split; [constructor | lia].
  - destruct (should_close (window st)) eqn:Hc.
    + rewrite main_loop_closed in * by done. injection Hf as <-.
      exists []. simpl. repeat split; [constructor | lia].
    + rewrite main_loop_step in * by done. cbn [fst snd] in *.
      rewrite filter_title_pass, filter_draw_pass. cbn [length] in *.
      destruct (tick_fps t now ltac:(lia)) as [[Ht Hn] | [Ht Hn]].
      * destruct (IH _ _ Hf) as (shown & Hs & Hp & Hsum); [lia | lia |].
        cbn zeta in Hs, Hsum. exists shown. rewrite Ht. cbn [app].
        repeat split; [done | done | lia].
      * destruct (IH _ _ Hf) as (shown & Hs & Hp & Hsum); [lia | lia |].
        cbn zeta in Hs, Hsum. exists ((fps t + 1) :: shown). rewrite Ht.
        cbn [app map sum_Z fold_right]. rewrite Hs.
        repeat split; [constructor; [lia | done] |].
        fold (sum_Z shown). lia.
Qed.

Lemma main_loop_counts_frames_sample :
  let run := main_loop sample_libm (mk_resources 4 1 1 1 2 3 256) triangle_model
               (env_frames sample_environment)
               (initial_state sample_window,
                mk_timing (float_of_Z 0) (float_of_Z 0) (float_of_Z 0)
                          (float_of_Z 0) 0) in
  exists final shown,
    fst run = Some final
    /\ List.filter is_title (snd run) = map title_of shown
    /\ Forall (λ n, 0 < n) shown
    /\ sum_Z shown + fps (snd final)
       = 0 + Z.of_nat (length (List.filter is_draw (snd run))).
Proof.
  cbn zeta.
  destruct (fst (main_loop sample_libm (mk_resources 4 1 1 1 2 3 256)
                   triangle_model (env_frames sample_environment)
                   (initial_state sample_window,
                    mk_timing (float_of_Z 0) (float_of_Z 0) (float_of_Z 0)
                              (float_of_Z 0) 0))) as [final |] eqn:Hf;
    [| vm_compute in Hf; discriminate Hf].
  destruct (main_loop_counts_frames _ _ _ _ _ _ final Hf)
    as (shown & H1 & H2 & H3); [simpl; lia | vm_compute; reflexivity |].
  exists final, shown. repeat split; assumption.
Defined.

(** ** [main] from start to exit *)

Lemma filter_map_none {A B : Type} (f : B -> bool) (h : A -> B) (l : list A) :
  (forall a, f (h a) = false) -> List.filter f (map h l) = [].
Proof. intros H. induction l as [| a l IH]; simpl; [done |]. by rewrite H. Qed.

Lemma flat_map_map_none {A B C : Type} (f : B -> list C) (h : A -> B)
    (l : list A) :
  (forall a, f (h a) = []) -> flat_map f (map h l) = [].
Proof. intros H. induction l as [| a l IH]; simpl; [done |]. by rewrite H. Qed.

Lemma Forall_map_other {A B : Type} (P : B -> Prop) (h : A -> B) (l : list A) :
  (forall a, P (h a)) -> Forall P (map h l).
Proof. intros H. induction l as [| a l IH]; simpl; by constructor. Qed.

Lemma loadModel_indices_length (attrib : tinyobj.attrib_t)
    (shapes : list tinyobj.shape_t) (g : model) :
  loadModel attrib shapes empty_model = Some g ->
  length (indices g) = length (corners shapes).
Proof.
  rewrite loadModel_push_all. unfold candidates.
  destruct (mapM _ _) as [cs |] eqn:Hcs; [| done]. intros [= <-].
  rewrite push_all_indices_length. simpl. by apply mapM_length in Hcs.
Qed.

Lemma main_loop_draw_calls (m : libm) (r : resources) (g : model)
    (frames : list (double * list event * bool)) (s : state * timing) :
  Forall (λ c, forall mode count type ind inst,
               c = DrawElementsInstanced mode count type ind inst ->
               mode = GL_TRIANGLES
               /\ count = to_int32 (Z.of_nat (length (indices g))))
         (snd (main_loop m r g frames s)).
Proof.
  revert s. induction frames as [| [[now events] close] frames IH];
    intros [st t].
  - simpl. destruct (should_close (window st)); simpl; apply List.Forall_nil.
  - destruct (should_close (window st)) eqn:Hc.
    + rewrite main_loop_closed by done. apply List.Forall_nil.
    + rewrite main_loop_step by done. cbn [snd].
      rewrite !Forall_app. split; [| split; [| split]].
      * destruct (tick_calls t now) as [-> | ->]; [apply List.Forall_nil |].
        apply List.Forall_cons; [intros ? ? ? ? ?; discriminate | apply List.Forall_nil].
      * unfold render.
        repeat (apply List.Forall_cons; [intros ? ? ? ? ?; try discriminate |]);
          [| apply List.Forall_nil].
        by intros [= <- <- _ _ _].
      * apply List.Forall_cons; [intros ? ? ? ? ?; discriminate | apply List.Forall_nil].
      * apply IH.
Qed.

Ltac other_calls :=
  repeat (apply List.Forall_cons; [intros ? ? ? ? ?; discriminate |]);
  try apply List.Forall_nil.

(** Every draw call of [main] draws triangles from as many indices as the
    shapes of the file have corners (fewer than 2^31; the count is passed as
    a signed 32-bit integer). *)
Theorem main_draws_every_corner (m : libm) (env : environment) :
  Z.of_nat (length (corners (env_shapes env))) < 2 ^ 31 ->
  Forall (λ c, forall mode count type ind inst,
               c = Frame (DrawElementsInstanced mode count type ind inst) ->
               mode = GL_TRIANGLES
               /\ count = Z.of_nat (length (corners (env_shapes env))))
         (snd (main m env)).
Proof.
  intros Hlt. unfold main.
  destruct (env_glfwInit env); [| cbn; other_calls]. cbn [negb].
  destruct (env_glfwCreateWindow env) as [w |]; [| cbn; other_calls].
  destruct (env_gladLoadGLLoader env); [| cbn; other_calls]. cbn [negb].
  destruct (env_framebuffer env) as [width height].
  destruct (createShaderProgram _ _ _ _) as [[program pipeline] s].
  assert (Forall (λ c, forall mode count type ind inst,
               c = Frame (DrawElementsInstanced mode count type ind inst) ->
               mode = GL_TRIANGLES
               /\ count = Z.of_nat (length (corners (env_shapes env))))
            (startup ++ install
             ++ [GetFramebufferSize; Viewport 0 0 width height]
             ++ map Build (gl_calls s) ++ [LoadObj "model/rabbit.obj"]))
    as Hbefore.
  { rewrite !Forall_app. repeat split; try (cbn; other_calls).
    apply Forall_map_other. intros; discriminate. }
  destruct (loadModel _ _ _) as [g |] eqn:Hg; [| exact Hbefore].
  destruct (env_buffers env) as [[VERTEX ELEMENT] TRANSFORM].
  destruct (loadTexture _ _ _ _) as [texture_calls tex].
  pose proof (main_loop_draw_calls m
    {| pipeline := pipeline; vao := env_vao env; tex := tex;
       buffer_VERTEX := VERTEX; buffer_ELEMENT := ELEMENT;
       buffer_TRANSFORM := TRANSFORM;
       blockSize := Z.max sizeof_UniformBufferObject (env_alignment env) |}
    g (env_frames env)
    (initial_state w,
     {| currentFrame := double_to_float (env_time env);
        deltaTime := float_of_Z 0; lastFrame := float_of_Z 0;
        time := float_of_Z 0; fps := 0 |})) as Hloop.
  destruct (main_loop _ _ _ _ _) as [final calls]. cbn [snd] in Hloop.
  assert (Forall (λ c, forall mode count type ind inst,
               c = Frame (DrawElementsInstanced mode count type ind inst) ->
               mode = GL_TRIANGLES
               /\ count = Z.of_nat (length (corners (env_shapes env))))
            (map Frame calls)) as Hframes.
  { induction Hloop as [| c calls Hc _ IH]; simpl; constructor; [| exact IH].
    intros mode count type ind inst [= ->].
    destruct (Hc _ _ _ _ _ eq_refl) as [-> ->].
    split; [done |]. rewrite (loadModel_indices_length _ _ _ Hg).
    unfold to_int32. rewrite Z.mod_small; lia. }
  destruct final as [s_end |]; cbn [snd]; rewrite !Forall_app;
    repeat split; try done; try (cbn; other_calls);
    apply Forall_map_other; intros; discriminate.
Qed.

Lemma main_draws_every_corner_sample :
  Forall (λ c, forall mode count type ind inst,
               c = Frame (DrawElementsInstanced mode count type ind inst) ->
               mode = GL_TRIANGLES
               /\ count = Z.of_nat (length (corners (env_shapes sample_environment))))
         (snd (main sample_libm sample_environment)).
Proof.
  apply (main_draws_every_corner sample_libm sample_environment).
  vm_compute. reflexivity.
Defined.

(** [main] returns -1 exactly when GLFW, the window or the OpenGL loader
    fails to come up.  Otherwise it returns 0 once a pass of the loop has
    seen a press of Escape or a request to close, provided the model file
    indexes within its arrays; what the driver says of the shaders, whether
    the model file was read and whether the image was decoded change
    nothing about the exit code. *)
Theorem main_exit_code (m : libm) (env : environment) :
  fst (main m env)
  = match env_glfwInit env, env_glfwCreateWindow env,
          env_gladLoadGLLoader env with
    | true, Some w, true =>
        match loadModel (env_attrib env) (env_shapes env) empty_model with
        | None => Undefined
        | Some _ =>
            match passes_from w (env_frames env) with
            | Some _ => Returns 0
            | None => Running
            end
        end
    | _, _, _ => Returns (-1)
    end.
Proof.
  unfold main.
  destruct (env_glfwInit env); [| done]. cbn [negb].
  destruct (env_glfwCreateWindow env) as [w |]; [| done].
  destruct (env_gladLoadGLLoader env); [| done]. cbn [negb].
  destruct (env_framebuffer env) as [width height].
  destruct (createShaderProgram _ _ _ _) as [[program pipeline] s].
  destruct (loadModel _ _ _) as [g |]; [| done].
  destruct (env_buffers env) as [[VERTEX ELEMENT] TRANSFORM].
  destruct (loadTexture _ _ _ _) as [texture_calls tex].
  pose proof (main_loop_final m
    {| pipeline := pipeline; vao := env_vao env; tex := tex;
       buffer_VERTEX := VERTEX; buffer_ELEMENT := ELEMENT;
       buffer_TRANSFORM := TRANSFORM;
       blockSize := Z.max sizeof_UniformBufferObject (env_alignment env) |}
    g (env_frames env) (initial_state w)
    {| currentFrame := double_to_float (env_time env);
       deltaTime := float_of_Z 0; lastFrame := float_of_Z 0;
       time := float_of_Z 0; fps := 0 |}) as Hfinal.
  destruct (main_loop _ _ _ _ _) as [final calls]. cbn [fst] in Hfinal.
  change (window (initial_state w)) with w in Hfinal.
  destruct final as [s_end |], (passes_from w (env_frames env)) as [n |];
    cbn [fst]; try done.
  - destruct Hfinal as [Hfinal _]. by destruct Hfinal.
  - destruct Hfinal as [_ Hfinal]. by destruct Hfinal.
Qed.

Lemma loadTexture_created (textureId : Z) (filename : string) (comp : Z)
    (image : stbi_image) :
  flat_map created (map Texture (fst (loadTexture textureId filename comp image)))
  = [(2, textureId)]
  /\ snd (loadTexture textureId filename comp image) = textureId.
Proof.
  unfold loadTexture. destruct (loadTexture_format comp) as [in_ ex].
  unfold createTexture2D. cbn [fst snd]. by destruct (image_data image).
Qed.

(** When [main] returns 0, the buffers, the vertex array and the texture it
    has created are the ones it deletes, each once, and it deletes them
    after the last call of the last frame. *)
Theorem main_releases_objects (m : libm) (env : environment) :
  fst (main m env) = Returns 0 ->
  flat_map deleted (snd (main m env)) ≡ₚ flat_map created (snd (main m env))
  /\ exists running teardown,
       snd (main m env) = running ++ teardown
       /\ flat_map deleted running = []
       /\ List.filter is_Frame teardown = [].
Proof.
  unfold main.
  destruct (env_glfwInit env); [| done]. cbn [negb].
  destruct (env_glfwCreateWindow env) as [w |]; [| done].
  destruct (env_gladLoadGLLoader env); [| done]. cbn [negb].
  destruct (env_framebuffer env) as [width height].
  destruct (createShaderProgram _ _ _ _) as [[program pipeline] s].
  destruct (loadModel _ _ _) as [g |]; [| done].
  destruct (env_buffers env) as [[VERTEX ELEMENT] TRANSFORM].
  pose proof (loadTexture_created (env_tex env) "model/rabbit.jpg"
                STBI_rgb_alpha (env_image env)) as [Hcreated Htex].
  destruct (loadTexture _ _ _ _) as [texture_calls tex].
  cbn [fst snd] in Hcreated, Htex. subst tex.
  destruct (main_loop _ _ _ _ _) as [final calls].
  destruct final as [s_end |]; [| done]. intros _. cbn [snd]. split.
  - rewrite !flat_map_app, Hcreated.
    rewrite !(flat_map_map_none deleted Texture) by done.
    rewrite !(flat_map_map_none deleted Frame) by done.
    rewrite !(flat_map_map_none created Frame) by done.
    rewrite !(flat_map_map_none deleted Build) by done.
    rewrite !(flat_map_map_none created Build) by done.
    cbn. apply Permutation_sym.
    change [(0, VERTEX); (0, ELEMENT); (0, TRANSFORM); (1, env_vao env);
            (2, env_tex env)]
      with ([(0, VERTEX); (0, ELEMENT); (0, TRANSFORM)]
            ++ [(1, env_vao env)] ++ [(2, env_tex env)]).
    change [(1, env_vao env); (0, VERTEX); (0, ELEMENT); (0, TRANSFORM);
            (2, env_tex env)]
      with ([(1, env_vao env)]
            ++ [(0, VERTEX); (0, ELEMENT); (0, TRANSFORM)]
            ++ [(2, env_tex env)]).
    rewrite !app_assoc. apply Permutation_app_tail, Permutation_app_comm.
  - eexists _, _. split; [apply app_assoc |].
    split.
    + rewrite !flat_map_app.
      rewrite !(flat_map_map_none deleted Texture) by done.
      rewrite !(flat_map_map_none deleted Frame) by done.
      rewrite !(flat_map_map_none deleted Build) by done.
      reflexivity.
    + rewrite List.filter_app, (filter_map_none is_Frame Build) by done.
      reflexivity.
Qed.

Lemma main_releases_objects_sample :
  flat_map deleted (snd (main sample_libm sample_environment))
    ≡ₚ flat_map created (snd (main sample_libm sample_environment))
  /\ exists running teardown,
       snd (main sample_libm sample_environment) = running ++ teardown
       /\ flat_map deleted running = []
       /\ List.filter is_Frame teardown = [].
Proof.
  apply (main_releases_objects sample_libm sample_environment).
  vm_compute. reflexivity.
Defined.

(** On every path on which [main] returns, [glfwTerminate] is called once
    when [glfwInit] has succeeded, except when the OpenGL loader fails: then
    [main] returns with neither [glfwTerminate] nor [glfwDestroyWindow]
    called for the window it has created.  The window is destroyed, once,
    on the normal exit only. *)
Theorem main_terminates_glfw (m : libm) (env : environment) (code : Z) :
  fst (main m env) = Returns code ->
  length (List.filter is_Terminate (snd (main m env)))
  = (if env_glfwInit env
        && (negb (bool_decide (is_Some (env_glfwCreateWindow env)))
            || env_gladLoadGLLoader env)
     then 1 else 0)%nat
  /\ length (List.filter is_DestroyWindow (snd (main m env)))
     = (if started env then 1 else 0)%nat.
Proof.
  unfold main, started.
  destruct (env_glfwInit env); [| done]. cbn [negb].
  destruct (env_glfwCreateWindow env) as [w |]; [| done].
  destruct (env_gladLoadGLLoader env); [| done]. cbn [negb].
  destruct (env_framebuffer env) as [width height].
  destruct (createShaderProgram _ _ _ _) as [[program pipeline] s].
  destruct (loadModel _ _ _) as [g |]; [| done].
  destruct (env_buffers env) as [[VERTEX ELEMENT] TRANSFORM].
  destruct (loadTexture _ _ _ _) as [texture_calls tex].
  destruct (main_loop _ _ _ _ _) as [final calls].
  destruct final as [s_end |]; [| done]. intros _. cbn [snd].
  rewrite !List.filter_app.
  rewrite !(filter_map_none is_Terminate Build) by done.
  rewrite !(filter_map_none is_Terminate Frame) by done.
  rewrite !(filter_map_none is_Terminate Texture) by done.
  rewrite !(filter_map_none is_DestroyWindow Build) by done.
  rewrite !(filter_map_none is_DestroyWindow Frame) by done.
  rewrite !(filter_map_none is_DestroyWindow Texture) by done.
  split; reflexivity.
Qed.

Lemma main_terminates_glfw_sample :
  length (List.filter is_Terminate (snd (main sample_libm sample_environment)))
  = 1%nat
  /\ length (List.filter is_DestroyWindow
               (snd (main sample_libm sample_environment)))
     = 1%nat.
Proof.
  apply (main_terminates_glfw sample_libm sample_environment 0).
  vm_compute. reflexivity.
Defined.
